(** * The backport tool: GitHub client and cherry-pick engine

    A shallow embedding of [assets/backport/github/github.go] and of the
    pure helpers of the command's [main] package.

    The client talks to the repository host through go-github.  Every
    call of that library is an event of [gitE]; a method of [Client] is
    an interaction tree over those events, so that the order of the
    calls, the arguments they carry and the unbounded page loop of
    [getPullRequestCommits] are all visible in the embedded program.
    The [context.Context] argument is left out: no call is cancelled.
    A host is a handler of the events over a state; [run] executes a
    program against a host and records the calls it made.

    The [main] package is embedded from the values of its flags and
    the outcome of reading the token; [strings.TrimSpace] is an
    argument of [parseBranches] and [main].

    The definitions come first: the embedded code, the semantics, the
    vocabulary of the statements and an in-memory host for examples.
    The lemmas and theorems follow. *)

From Stdlib Require Import ZArith List String Ascii Bool Lia.
From Stdlib Require Import DecimalString DecimalZ.
From ITree Require Import ITree ITreeFacts Events.State Events.StateFacts.
From Paco Require Import paco.
Import ListNotations.
Import ITreeNotations.
Local Open Scope string_scope.
Local Open Scope list_scope.
Local Open Scope Z_scope.
Local Open Scope itree_scope.

Set Warnings "-register-all".

(* ================================================================== *)
(** ** Errors *)

(** The errors built with [gravitational/trace].  [Wrap] records one
    application of [trace.Wrap]; [HostError] is an error handed back by
    a go-github call. *)
Inductive error : Type :=
| BadParameter (msg : string)
| Errorf (msg : string)
| HostError (msg : string)
| Wrap (err : error).

(** The error a chain of [trace.Wrap] was built around. *)
Fixpoint Unwrap (e : error) : error :=
  match e with
  | Wrap e' => Unwrap e'
  | _ => e
  end.

(** A Go result [(v, err)]: [inl err] when [err != nil]. *)
Definition result (A : Type) : Type := (error + A)%type.

(* ================================================================== *)
(** ** Strings *)

(** [strings.TrimPrefix]. *)
Definition TrimPrefix (s pre : string) : string :=
  if String.prefix pre s
  then String.substring (String.length pre) (String.length s - String.length pre) s
  else s.

(** [strconv.Itoa]. *)
Definition Itoa (n : Z) : string := NilZero.string_of_int (Z.to_int n).

(** The pointer fields of the go-github structs are options; a getter
    on a nil pointer yields the zero value. *)
Definition GetString (p : option string) : string :=
  match p with Some s => s | None => "" end.

(* ================================================================== *)
(** ** go-github data *)

Module Tree.
Record t : Type := mk { SHA : option string }.
End Tree.

Module Commit.
Inductive t : Type := mk
  { SHA : option string;
    Message : option string;
    Tree : option Tree.t;
    Parents : list t }.
Definition GetSHA (c : t) : string := GetString (SHA c).
Definition GetTree (c : t) : option Tree.t := Tree c.
End Commit.

Module RepositoryCommit.
Record t : Type := mk { SHA : option string }.
Definition GetSHA (p : option t) : string :=
  match p with Some c => GetString (SHA c) | None => "" end.
End RepositoryCommit.

Module Branch.
Record t : Type := mk { Commit : option RepositoryCommit.t }.
Definition GetCommit (b : t) : option RepositoryCommit.t := Commit b.
End Branch.

Module GitObject.
Record t : Type := mk { SHA : option string }.
End GitObject.

Module Reference.
Record t : Type := mk { Ref : option string; Object : option GitObject.t }.
End Reference.

Module RepositoryMergeRequest.
Record t : Type := mk { Base : option string; Head : option string }.
End RepositoryMergeRequest.

Module ListOptions.
Record t : Type := mk { Page : Z; PerPage : Z }.
(** The zero value [ListOptions{}]. *)
Definition zero : t := mk 0 0.
End ListOptions.

Module Response.
Record t : Type := mk { NextPage : Z }.
End Response.

Module PullRequestBranch.
Record t : Type := mk { Ref : option string }.
Definition GetRef (p : option t) : string :=
  match p with Some b => GetString (Ref b) | None => "" end.
End PullRequestBranch.

Module PullRequest.
Record t : Type := mk
  { Number : option Z;
    State : option string;
    Base : option PullRequestBranch.t;
    Head : option PullRequestBranch.t }.
Definition GetState (p : t) : string := GetString (State p).
Definition GetNumber (p : t) : Z :=
  match Number p with Some n => n | None => 0 end.
Definition GetBase (p : t) : option PullRequestBranch.t := Base p.
Definition GetHead (p : t) : option PullRequestBranch.t := Head p.
End PullRequest.

Module NewPullRequest.
Record t : Type := mk
  { Title : option string;
    Head : option string;
    Base : option string;
    Body : option string;
    MaintainerCanModify : option bool }.
End NewPullRequest.

(* ================================================================== *)
(** ** The calls of go-github the client makes *)

(** One constructor per service method; the first two arguments are
    the owner and the repository.  The answer is the Go pair of value
    and error, with the [*Response] kept where the client reads it. *)
Variant gitE : Type -> Type :=
| Repositories_GetBranch (owner repo branch : string) (followRedirects : bool)
  : gitE (result Branch.t)
| Repositories_Merge (owner repo : string) (request : RepositoryMergeRequest.t)
  : gitE (result RepositoryCommit.t)
| Git_GetCommit (owner repo sha : string)
  : gitE (result Commit.t)
| Git_CreateCommit (owner repo : string) (commit : Commit.t)
  : gitE (result Commit.t)
| Git_CreateRef (owner repo : string) (ref : Reference.t)
  : gitE (result Reference.t)
| Git_UpdateRef (owner repo : string) (ref : Reference.t) (force : bool)
  : gitE (result Reference.t)
| Git_DeleteRef (owner repo ref : string)
  : gitE (result unit)
| PullRequests_Get (owner repo : string) (number : Z)
  : gitE (result PullRequest.t)
| PullRequests_ListCommits (owner repo : string) (number : Z) (opts : ListOptions.t)
  : gitE (result (list RepositoryCommit.t * Response.t))
| PullRequests_Create (owner repo : string) (pull : NewPullRequest.t)
  : gitE (result PullRequest.t).

(** A call with its answer type hidden, for call logs. *)
Inductive call : Type :=
| Call {X : Type} (e : gitE X).

(* ================================================================== *)
(** ** Constants of github.go *)

Definition backportPRState : string := "closed".
Definition masterBranchName : string := "master".
Definition perPage : Z := 100.
Definition branchRefPrefix : string := "refs/heads/".

(* ================================================================== *)
(** ** Client and configuration *)

Record Config : Type := mkConfig
  { Token : string;
    Organization : string;
    Repository : string }.

(** The go-github client, known by the token its transport sends. *)
Record go_github_Client : Type := NewClient { AccessToken : string }.

Record Client : Type := mkClient
  { Client_Client : go_github_Client;
    Client_Config : Config }.

Definition org (c : Client) : string := Organization (Client_Config c).
Definition rep (c : Client) : string := Repository (Client_Config c).

(** [Config.Check]: [None] is the nil error. *)
Definition Check (c : Config) : option error :=
  if String.eqb (Token c) "" then Some (BadParameter "missing token")
  else if String.eqb (Organization c) "" then Some (BadParameter "missing organization")
  else if String.eqb (Repository c) "" then Some (BadParameter "missing repository")
  else None.

(** [New]. *)
Definition New (c : Config) : result Client :=
  match Check c with
  | Some err => inl (Wrap err)
  | None => inr {| Client_Client := NewClient (Token c); Client_Config := c |}
  end.

(* ================================================================== *)
(** ** The methods of [Client] *)

(** Name of the branch [Backport] creates:
    [fmt.Sprintf("auto-backport/%s/%s", baseBranchName, backportBranchName)]. *)
Definition newBranchName (baseBranchName backportBranchName : string) : string :=
  "auto-backport/" ++ baseBranchName ++ "/" ++ backportBranchName.

(** [fmt.Sprintf("%s%s", branchRefPrefix, branchName)]. *)
Definition refName (branchName : string) : string :=
  branchRefPrefix ++ branchName.

Definition branchRef (branchName sha : string) : Reference.t :=
  {| Reference.Ref := Some (refName branchName);
     Reference.Object := Some {| GitObject.SHA := Some sha |} |}.

(** [createBranchFrom]. *)
Definition createBranchFrom (c : Client) (branchFromName newBranchName : string)
  : itree gitE (option error) :=
  r <- ITree.trigger (Repositories_GetBranch (org c) (rep c) branchFromName true) ;;
  match r with
  | inl err => Ret (Some (Wrap err))
  | inr baseBranch =>
      let baseBranchSHA := RepositoryCommit.GetSHA (Branch.GetCommit baseBranch) in
      r <- ITree.trigger (Git_CreateRef (org c) (rep c) (branchRef newBranchName baseBranchSHA)) ;;
      match r with
      | inl err => Ret (Some (Wrap err))
      | inr _ => Ret None
      end
  end.

(** [merge]. *)
Definition merge (c : Client) (base headCommitSHA : string)
  : itree gitE (result Commit.t) :=
  r <- ITree.trigger (Repositories_Merge (org c) (rep c)
         {| RepositoryMergeRequest.Base := Some base;
            RepositoryMergeRequest.Head := Some headCommitSHA |}) ;;
  match r with
  | inl err => Ret (inl (Wrap err))
  | inr merge =>
      r <- ITree.trigger (Git_GetCommit (org c) (rep c) (RepositoryCommit.GetSHA (Some merge))) ;;
      match r with
      | inl err => Ret (inl (Wrap err))
      | inr mergeCommit => Ret (inr mergeCommit)
      end
  end.

(** The commit [createSiblingCommit] asks the host to create. *)
Definition siblingCommit (branchHeadCommit cherryParent : Commit.t) : Commit.t :=
  {| Commit.SHA := None;
     Commit.Message := Some "field-not-required";
     Commit.Tree := Commit.GetTree branchHeadCommit;
     Commit.Parents := [cherryParent] |}.

(** [createSiblingCommit]. *)
Definition createSiblingCommit (c : Client) (branchName : string)
    (branchHeadCommit cherryParent : Commit.t) : itree gitE (option error) :=
  r <- ITree.trigger (Git_CreateCommit (org c) (rep c)
         (siblingCommit branchHeadCommit cherryParent)) ;;
  match r with
  | inl err => Ret (Some (Wrap err))
  | inr commit =>
      let sha := Commit.GetSHA commit in
      r <- ITree.trigger (Git_UpdateRef (org c) (rep c) (branchRef branchName sha) true) ;;
      match r with
      | inl err => Ret (Some (Wrap err))
      | inr _ => Ret None
      end
  end.

(** The commit [cherryPickCommit] asks the host to create at the end. *)
Definition finalCommit (cherryCommit : Commit.t) (mergeTree : option Tree.t)
    (updatedCommit : Commit.t) : Commit.t :=
  {| Commit.SHA := None;
     Commit.Message := Commit.Message cherryCommit;
     Commit.Tree := mergeTree;
     Commit.Parents := [updatedCommit] |}.

(** [cherryPickCommit]. *)
Definition cherryPickCommit (c : Client) (branchName : string)
    (cherryCommit headBranchCommit : Commit.t)
  : itree gitE (result (option Tree.t * string)) :=
  match Commit.Parents cherryCommit with
  | [cherryParent] =>
      err <- createSiblingCommit c branchName headBranchCommit cherryParent ;;
      match err with
      | Some err => Ret (inl (Wrap err))
      | None =>
          r <- merge c branchName (Commit.GetSHA cherryCommit) ;;
          match r with
          | inl err => Ret (inl (Wrap err))
          | inr merge =>
              let mergeTree := Commit.GetTree merge in
              r <- ITree.trigger (Git_GetCommit (org c) (rep c) (Commit.GetSHA headBranchCommit)) ;;
              match r with
              | inl err => Ret (inl (Wrap err))
              | inr updatedCommit =>
                  r <- ITree.trigger (Git_CreateCommit (org c) (rep c)
                         (finalCommit cherryCommit mergeTree updatedCommit)) ;;
                  match r with
                  | inl err => Ret (inl (Wrap err))
                  | inr commit =>
                      let sha := Commit.GetSHA commit in
                      r <- ITree.trigger (Git_UpdateRef (org c) (rep c) (branchRef branchName sha) true) ;;
                      match r with
                      | inl err => Ret (inl (Wrap err))
                      | inr _ => Ret (inr (mergeTree, sha))
                      end
                  end
              end
          end
      end
  | _ => Ret (inl (BadParameter "merge commits are not supported"))
  end.

(** The assignments [headCommit.SHA = &sha; headCommit.Tree = tree]. *)
Definition setHead (headCommit : Commit.t) (tree : option Tree.t) (sha : string) : Commit.t :=
  {| Commit.SHA := Some sha;
     Commit.Message := Commit.Message headCommit;
     Commit.Tree := tree;
     Commit.Parents := Commit.Parents headCommit |}.

(** The [for i := 0; i < len(commits); i++] loop of
    [cherryPickCommitsOnBranch], on the commits still to pick.  The
    deferred [DeleteRef] runs once the wrapped error is the return
    value; its own answer is dropped.  The loop hands back the head
    commit it ends with. *)
Fixpoint cherryPickLoop (c : Client) (branchName : string) (commits : list string)
    (headCommit : Commit.t) : itree gitE (result Commit.t) :=
  match commits with
  | [] => Ret (inr headCommit)
  | commit_i :: commits' =>
      r <- ITree.trigger (Git_GetCommit (org c) (rep c) commit_i) ;;
      match r with
      | inl err => Ret (inl (Wrap err))
      | inr cherryCommit =>
          r <- cherryPickCommit c branchName cherryCommit headCommit ;;
          match r with
          | inl err =>
              ITree.trigger (Git_DeleteRef (org c) (rep c) (refName branchName)) ;;
              Ret (inl (Wrap err))
          | inr (tree, sha) =>
              cherryPickLoop c branchName commits' (setHead headCommit tree sha)
          end
      end
  end.

(** [cherryPickCommitsOnBranch]: [None] is the nil error. *)
Definition cherryPickCommitsOnBranch (c : Client) (branchName : string)
    (commits : list string) : itree gitE (option error) :=
  r <- ITree.trigger (Repositories_GetBranch (org c) (rep c) branchName true) ;;
  match r with
  | inl err => Ret (Some (Wrap err))
  | inr branch =>
      r <- ITree.trigger (Git_GetCommit (org c) (rep c)
             (RepositoryCommit.GetSHA (Branch.GetCommit branch))) ;;
      match r with
      | inl err => Ret (Some (Wrap err))
      | inr headCommit =>
          r <- cherryPickLoop c branchName commits headCommit ;;
          match r with
          | inl err => Ret (Some err)
          | inr _ => Ret None
          end
      end
  end.

(** [Backport].  The two [fmt.Printf] progress lines are left out. *)
Definition Backport (c : Client) (baseBranchName backportBranchName : string)
    (commits : list string) : itree gitE (result string) :=
  let newBranchName := newBranchName baseBranchName backportBranchName in
  err <- createBranchFrom c baseBranchName newBranchName ;;
  match err with
  | Some err => Ret (inl (Wrap err))
  | None =>
      err <- cherryPickCommitsOnBranch c newBranchName commits ;;
      match err with
      | Some err => Ret (inl (Wrap err))
      | None => Ret (inr newBranchName)
      end
  end.

(** [CreatePullRequest]: the host's error is returned as it is. *)
Definition CreatePullRequest (c : Client) (baseBranch headBranch titleAndBody : string)
  : itree gitE (option error) :=
  let newPR :=
    {| NewPullRequest.Title := Some titleAndBody;
       NewPullRequest.Head := Some headBranch;
       NewPullRequest.Base := Some baseBranch;
       NewPullRequest.Body := Some titleAndBody;
       NewPullRequest.MaintainerCanModify := Some true |} in
  r <- ITree.trigger (PullRequests_Create (org c) (rep c) newPR) ;;
  match r with
  | inl err => Ret (Some err)
  | inr _ => Ret None
  end.

(** State of the page loop: the shas gathered so far and [opts]. *)
Definition pageState : Type := (list string * ListOptions.t)%type.

(** One round of the [for { ... }] loop of [getPullRequestCommits]:
    [inl] goes round again, [inr] leaves the loop.  The request is made
    with a fresh [&go_github.ListOptions{}]; [opts] is only assigned. *)
Definition pageStep (c : Client) (number : Z) (st : pageState)
  : itree gitE (pageState + result (list string)) :=
  let '(commitSHAs, opts) := st in
  r <- ITree.trigger (PullRequests_ListCommits (org c) (rep c) number ListOptions.zero) ;;
  match r with
  | inl err => Ret (inr (inl (Wrap err)))
  | inr (currCommits, resp) =>
      let commitSHAs :=
        commitSHAs ++ List.map (fun commit => RepositoryCommit.GetSHA (Some commit)) currCommits in
      if Response.NextPage resp =? 0
      then Ret (inr (inr commitSHAs))
      else Ret (inl (commitSHAs,
                     {| ListOptions.Page := Response.NextPage resp;
                        ListOptions.PerPage := ListOptions.PerPage opts |}))
  end.

(** [getPullRequestCommits]. *)
Definition getPullRequestCommits (c : Client) (number : Z)
  : itree gitE (result (list string)) :=
  ITree.iter (pageStep c number)
    ([], {| ListOptions.Page := 0; ListOptions.PerPage := perPage |}).

(** [GetPullRequestMetadata]. *)
Definition GetPullRequestMetadata (c : Client) (number : Z)
  : itree gitE (result (list string * string)) :=
  r <- ITree.trigger (PullRequests_Get (org c) (rep c) number) ;;
  match r with
  | inl err => Ret (inl (Wrap err))
  | inr pull =>
      if negb (String.eqb (PullRequest.GetState pull) backportPRState)
      then Ret (inl (Errorf ("pull request " ++ Itoa number ++ " is not closed")))
      else if negb (String.eqb
                      (TrimPrefix (PullRequestBranch.GetRef (PullRequest.GetBase pull)) branchRefPrefix)
                      masterBranchName)
      then Ret (inl (Errorf ("pull request " ++ Itoa number ++ "'s base is not master")))
      else
        r <- getPullRequestCommits c (PullRequest.GetNumber pull) ;;
        match r with
        | inl err => Ret (inl (Wrap err))
        | inr commits =>
            Ret (inr (commits,
                      TrimPrefix (PullRequestBranch.GetRef (PullRequest.GetHead pull)) branchRefPrefix))
        end
  end.

(* ================================================================== *)
(** ** The [main] package *)

(** [generateTitleAndBody]:
    [fmt.Sprintf("Backport #%s to %s", strconv.Itoa(pullNumber), targetBranch)]. *)
Definition generateTitleAndBody (pullNumber : Z) (targetBranch : string) : string :=
  "Backport #" ++ Itoa pullNumber ++ " to " ++ targetBranch.

(** [strings.Split(s, sep)] for a separator of one byte: the pieces of
    [s] between the separators, in order; a string without separator,
    the empty string too, is a single piece. *)
Fixpoint Split (s : string) (sep : ascii) : list string :=
  match s with
  | EmptyString => [EmptyString]
  | String a s' =>
      if Ascii.eqb a sep then EmptyString :: Split s' sep
      else match Split s' sep with
           | piece :: pieces => String a piece :: pieces
           | [] => [String a EmptyString]
           end
  end.

(** The [for _, branch := range branches] loop of [parseBranches].
    [strings.TrimSpace] is an argument: it trims Unicode white space,
    which is not modelled here. *)
Fixpoint parseBranchesLoop (TrimSpace : string -> string) (branches : list string)
    (backportBranches : list string) : result (list string) :=
  match branches with
  | [] => inr backportBranches
  | branch :: branches' =>
      if String.eqb branch ""
      then inl (BadParameter "recieved an empty branch name.")
      else parseBranchesLoop TrimSpace branches' (backportBranches ++ [TrimSpace branch])
  end.

(** [parseBranches]. *)
Definition parseBranches (TrimSpace : string -> string) (branchesInput : string)
  : result (list string) :=
  parseBranchesLoop TrimSpace (Split branchesInput ","%char) [].

(** [parseFlags], after [flag.Parse] has set [to] and [pr]. *)
Definition parseFlags (to : string) (pr : Z) : option error :=
  if String.eqb to "" then Some (BadParameter "must supply branches to backport to.")
  else if pr =? 0
  then Some (BadParameter "much supply pull request with changes to backport.")
  else None.

(** The [for _, targetBranch := range backportBranches] loop of [main].
    [log.Fatal(err)] ends the program: the loop returns [Some err]. *)
Fixpoint backportTargets (clt : Client) (pr : Z) (commits : list string)
    (branchName : string) (backportBranches : list string) : itree gitE (option error) :=
  match backportBranches with
  | [] => Ret None
  | targetBranch :: backportBranches' =>
      r <- Backport clt targetBranch branchName commits ;;
      match r with
      | inl err => Ret (Some err)
      | inr newBranchName =>
          err <- CreatePullRequest clt targetBranch newBranchName
                   (generateTitleAndBody pr targetBranch) ;;
          match err with
          | Some err => Ret (Some err)
          | None => backportTargets clt pr commits branchName backportBranches'
          end
      end
  end.

(** [main], from the values of the flags and the outcome of
    [getGithubToken], which reads the token from a file.  [Some err] is
    the program ended by [log.Fatal(err)], [None] its normal end. *)
Definition main (TrimSpace : string -> string) (getGithubToken : result string)
    (to : string) (pr : Z) (repo owner : string) : itree gitE (option error) :=
  match parseFlags to pr with
  | Some err => Ret (Some err)
  | None =>
      match getGithubToken with
      | inl err => Ret (Some err)
      | inr token =>
          match parseBranches TrimSpace to with
          | inl err => Ret (Some err)
          | inr backportBranches =>
              match New {| Token := token; Repository := repo; Organization := owner |} with
              | inl err => Ret (Some err)
              | inr clt =>
                  r <- GetPullRequestMetadata clt pr ;;
                  match r with
                  | inl err => Ret (Some err)
                  | inr (commits, branchName) =>
                      backportTargets clt pr commits branchName backportBranches
                  end
              end
          end
      end
  end.


(* ================================================================== *)
(** ** Hosts and runs *)

(** A host answers every call and moves to a new state.  A call that
    does not come back has no answer here (go-github's [CreateCommit]
    reads the sha of every parent before it sends anything, and a
    parent without one stops the program there): the statements below
    are about the runs that return. *)
Definition host (G : Type) : Type := forall X : Type, gitE X -> G -> G * X.

(** [run h n t g]: execute [t] against host [h] from state [g] for at
    most [n] steps of the tree.  The outcome is the host's final
    state, the calls made, in order, and the value returned; [None]
    when [n] steps were not enough. *)
Fixpoint run {G R : Type} (h : host G) (n : nat) (t : itree gitE R) (g : G)
  : option (G * list call * R) :=
  match n with
  | O => None
  | S n' =>
      match observe t with
      | RetF r => Some (g, [], r)
      | TauF t' => run h n' t' g
      | VisF e k =>
          let '(g', x) := h _ e g in
          match run h n' (k x) g' with
          | Some (g'', l, r) => Some (g'', Call e :: l, r)
          | None => None
          end
      end
  end.

(** The program returns [r], having made the calls [l] and left the
    host in state [g']. *)
Definition Returns {G R : Type} (h : host G) (t : itree gitE R) (g : G)
    (g' : G) (l : list call) (r : R) : Prop :=
  exists n : nat, run h n t g = Some (g', l, r).

(** The program never returns. *)
Definition Diverges {G R : Type} (h : host G) (t : itree gitE R) (g : G) : Prop :=
  forall n : nat, run h n t g = None.


(** The host as a handler of the library: the state is the host's
    state with the log of the calls made so far. *)
Definition logged {G : Type} (h : host G)
  : gitE ~> Monads.stateT (G * list call) (itree void1) :=
  fun X e s =>
    let '(g', x) := h X e (fst s) in Ret ((g', snd s ++ [Call e]), x).

(** [u] is [Ret v] behind fewer than [n] silent steps. *)
Fixpoint lands {X : Type} (n : nat) (u : itree void1 X) (v : X) : Prop :=
  match n with
  | O => False
  | S n' =>
      match observe u with
      | RetF v' => v' = v
      | TauF u' => lands n' u' v
      | VisF _ _ => False
      end
  end.

(* ================================================================== *)
(** ** Vocabulary of the statements *)

(** Reading a decimal numeral back, the inverse of [Itoa]. *)
Definition Atoi (s : string) : option Z :=
  option_map Z.of_int (NilZero.int_of_string s).

(** The calls of one successful step, in order. *)
Definition stepCalls (c : Client) (branchName : string) (cherry tip parent sib : Commit.t)
    (m : RepositoryCommit.t) (mc upd fin : Commit.t) : list call :=
  [ Call (Git_CreateCommit (org c) (rep c) (siblingCommit tip parent));
    Call (Git_UpdateRef (org c) (rep c) (branchRef branchName (Commit.GetSHA sib)) true);
    Call (Repositories_Merge (org c) (rep c)
            {| RepositoryMergeRequest.Base := Some branchName;
               RepositoryMergeRequest.Head := Some (Commit.GetSHA cherry) |});
    Call (Git_GetCommit (org c) (rep c) (RepositoryCommit.GetSHA (Some m)));
    Call (Git_GetCommit (org c) (rep c) (Commit.GetSHA tip));
    Call (Git_CreateCommit (org c) (rep c) (finalCommit cherry (Commit.GetTree mc) upd));
    Call (Git_UpdateRef (org c) (rep c) (branchRef branchName (Commit.GetSHA fin)) true) ].

(** The two reads that open [cherryPickCommitsOnBranch]. *)
Definition openCalls (c : Client) (branchName : string) (nb : Branch.t) : list call :=
  [ Call (Repositories_GetBranch (org c) (rep c) branchName true);
    Call (Git_GetCommit (org c) (rep c) (RepositoryCommit.GetSHA (Branch.GetCommit nb))) ].

(** The request every round of the page loop sends. *)
Definition listCall (c : Client) (number : Z)
  : gitE (result (list RepositoryCommit.t * Response.t)) :=
  PullRequests_ListCommits (org c) (rep c) number ListOptions.zero.

Definition getCall (c : Client) (number : Z) : gitE (result PullRequest.t) :=
  PullRequests_Get (org c) (rep c) number.

(** The shas of a page of commits. *)
Definition shas (cs : list RepositoryCommit.t) : list string :=
  List.map (fun commit => RepositoryCommit.GetSHA (Some commit)) cs.

(** What a round does with the host's answer. *)
Definition pageNext (st : pageState) (x : result (list RepositoryCommit.t * Response.t))
  : pageState + result (list string) :=
  match x with
  | inl err => inr (inl (Wrap err))
  | inr (cs, resp) =>
      if Response.NextPage resp =? 0
      then inr (inr (fst st ++ shas cs))
      else inl (fst st ++ shas cs,
                {| ListOptions.Page := Response.NextPage resp;
                   ListOptions.PerPage := ListOptions.PerPage (snd st) |})
  end.

(** The answers that take the loop to its end: successful pages, all
    but the last of which announce a next page. *)
Inductive pages {G : Type} (h : host G) (c : Client) (number : Z)
  : G -> list (list RepositoryCommit.t) -> G -> Prop :=
| pages_last (g g' : G) (cs : list RepositoryCommit.t) (resp : Response.t) :
    h _ (listCall c number) g = (g', inr (cs, resp)) ->
    Response.NextPage resp = 0 ->
    pages h c number g [cs] g'
| pages_more (g g1 g' : G) (cs : list RepositoryCommit.t) (resp : Response.t)
    (rest : list (list RepositoryCommit.t)) :
    h _ (listCall c number) g = (g1, inr (cs, resp)) ->
    Response.NextPage resp <> 0 ->
    pages h c number g1 rest g' ->
    pages h c number g (cs :: rest) g'.

(** *** Properties of all the runs of a program *)

(** Every run of [t] from [g] ends in a state, with a log and a value
    that satisfy [Q]. *)
Definition Ensures {G R : Type} (h : host G) (t : itree gitE R) (g : G)
    (Q : G -> list call -> R -> Prop) : Prop :=
  forall g' l r, Returns h t g g' l r -> Q g' l r.

(** No run of [t], against any host, makes more than [N] calls. *)
Definition AtMost {R : Type} (N : nat) (t : itree gitE R) : Prop :=
  forall (G : Type) (h : host G) (g : G),
    Ensures h t g (fun _ l _ => (List.length l <= N)%nat).

(** Every call of every run of [t], against every host, satisfies [P]. *)
Definition Always {R : Type} (P : call -> Prop) (t : itree gitE R) : Prop :=
  forall (G : Type) (h : host G) (g : G), Ensures h t g (fun _ l _ => List.Forall P l).

(** The call that deletes the reference of [branch]. *)
Definition deleteCall (c : Client) (branch : string) : call :=
  Call (Git_DeleteRef (org c) (rep c) (refName branch)).

(** The last call of the log [l] is one the host answered with an
    error, leaving the state [g']; [e] is that error, wrapped or not. *)
Definition failedLast {G : Type} (h : host G) (g' : G) (l : list call) (e : error) : Prop :=
  exists (l0 : list call) (X : Type) (ev : gitE (result X)) (g0 : G) (e0 : error),
    l = l0 ++ [Call ev] /\ h _ ev g0 = (g', inl e0) /\ Unwrap e = Unwrap e0.

(** The error of a Go result, if any. *)
Definition errOf {A : Type} (r : result A) : option error :=
  match r with inl e => Some e | inr _ => None end.

(** The error in the host's answer [x] to the call [e], if any. *)
Definition refusal {X : Type} (e : gitE X) : X -> option error :=
  match e in gitE X return X -> option error with
  | Repositories_GetBranch _ _ _ _ => fun x => errOf x
  | Repositories_Merge _ _ _ => fun x => errOf x
  | Git_GetCommit _ _ _ => fun x => errOf x
  | Git_CreateCommit _ _ _ => fun x => errOf x
  | Git_CreateRef _ _ _ => fun x => errOf x
  | Git_UpdateRef _ _ _ _ => fun x => errOf x
  | Git_DeleteRef _ _ _ => fun x => errOf x
  | PullRequests_Get _ _ _ => fun x => errOf x
  | PullRequests_ListCommits _ _ _ _ => fun x => errOf x
  | PullRequests_Create _ _ _ => fun x => errOf x
  end.

(** The calls of [l] put to the host one after the other, from the
    state [g]: the state the host ends in and, call by call, the error
    it answered with, if any. *)
Fixpoint answers {G : Type} (h : host G) (g : G) (l : list call) : G * list (option error) :=
  match l with
  | [] => (g, [])
  | Call e :: l' =>
      let '(g1, x) := h _ e g in
      let '(g', os) := answers h g1 l' in
      (g', refusal e x :: os)
  end.

(** The host answers no call of [l] with an error. *)
Definition unrefused {G : Type} (h : host G) (g g' : G) (l : list call) : Prop :=
  answers h g l = (g', List.repeat None (List.length l)).

(** The host answers the last call of [l] with an error that has the
    root of [e], and no call before it with an error. *)
Definition refusedLast {G : Type} (h : host G) (g g' : G) (l : list call) (e : error) : Prop :=
  exists (l0 : list call) (k : call) (e0 : error),
    l = l0 ++ [k] /\
    answers h g l = (g', List.repeat None (List.length l0) ++ [Some e0]) /\
    Unwrap e = Unwrap e0.


(** A call that writes to the repository writes to [branch] only: it
    creates, moves or deletes the reference of [branch], or merges into
    [branch].  Reading, and creating a commit object, are free; opening
    a pull request is not among these calls. *)
Definition onBranch (branch : string) (k : call) : Prop :=
  match k with
  | Call e =>
      match e with
      | Git_CreateRef _ _ ref => Reference.Ref ref = Some (refName branch)
      | Git_UpdateRef _ _ ref _ => Reference.Ref ref = Some (refName branch)
      | Git_DeleteRef _ _ ref => ref = refName branch
      | Repositories_Merge _ _ request => RepositoryMergeRequest.Base request = Some branch
      | PullRequests_Create _ _ _ => False
      | _ => True
      end
  end.

(** The owner and the repository a call is addressed to. *)
Definition addressee (k : call) : string * string :=
  match k with
  | Call e =>
      match e with
      | Repositories_GetBranch o r _ _ => (o, r)
      | Repositories_Merge o r _ => (o, r)
      | Git_GetCommit o r _ => (o, r)
      | Git_CreateCommit o r _ => (o, r)
      | Git_CreateRef o r _ => (o, r)
      | Git_UpdateRef o r _ _ => (o, r)
      | Git_DeleteRef o r _ => (o, r)
      | PullRequests_Get o r _ => (o, r)
      | PullRequests_ListCommits o r _ _ => (o, r)
      | PullRequests_Create o r _ => (o, r)
      end
  end.

(** The calls the engine may make for the new branch [branch]. *)
Definition engineCall (c : Client) (branch : string) (k : call) : Prop :=
  onBranch branch k /\ addressee k = (org c, rep c).

Definition isCreateCommit (k : call) : bool :=
  match k with Call e => match e with Git_CreateCommit _ _ _ => true | _ => false end end.

Definition isDeleteRef (k : call) : bool :=
  match k with Call e => match e with Git_DeleteRef _ _ _ => true | _ => false end end.

Definition isCreatePull (k : call) : bool :=
  match k with Call e => match e with PullRequests_Create _ _ _ => true | _ => false end end.

(** What is counted in a log: the calls, the commits created, the
    references deleted. *)
Definition tally (l : list call) : nat * nat * nat :=
  (List.length l, List.length (List.filter isCreateCommit l),
   List.length (List.filter isDeleteRef l)).

(** A log asks for the deletion of [branch] at most once, and then as
    its last call. *)
Definition deletesLast (c : Client) (branch : string) (l : list call) : Prop :=
  List.filter isDeleteRef l = [] \/
  exists l0, l = l0 ++ [deleteCall c branch] /\ List.filter isDeleteRef l0 = [].

(** The call that opens the pull request of a target branch. *)
Definition createPullCall (clt : Client) (pr : Z) (branchName targetBranch : string) : call :=
  Call (PullRequests_Create (org clt) (rep clt)
          {| NewPullRequest.Title := Some (generateTitleAndBody pr targetBranch);
             NewPullRequest.Head := Some (newBranchName targetBranch branchName);
             NewPullRequest.Base := Some targetBranch;
             NewPullRequest.Body := Some (generateTitleAndBody pr targetBranch);
             NewPullRequest.MaintainerCanModify := Some true |}).

(** The answers that make the page loop give up: successful pages that
    announce a next page, then a request that fails with [err]. *)
Inductive pagesFail {G : Type} (h : host G) (c : Client) (number : Z) (err : error)
  : G -> nat -> G -> Prop :=
| pagesFail_now (g g' : G) :
    h _ (listCall c number) g = (g', inl err) ->
    pagesFail h c number err g 1 g'
| pagesFail_later (g g1 g' : G) (cs : list RepositoryCommit.t) (resp : Response.t) (n : nat) :
    h _ (listCall c number) g = (g1, inr (cs, resp)) ->
    Response.NextPage resp <> 0 ->
    pagesFail h c number err g1 n g' ->
    pagesFail h c number err g (S n) g'.

(** [strings.Join]. *)
Fixpoint Join (elems : list string) (sep : string) : string :=
  match elems with
  | [] => EmptyString
  | [a] => a
  | a :: elems' => a ++ sep ++ Join elems' sep
  end.

(** The byte [a] occurs in [s]. *)
Fixpoint occurs (a : ascii) (s : string) : bool :=
  match s with
  | EmptyString => false
  | String b s' => Ascii.eqb b a || occurs a s'
  end.

(** The number of bytes [a] in [s]. *)
Fixpoint countByte (a : ascii) (s : string) : nat :=
  match s with
  | EmptyString => O
  | String b s' => (if Ascii.eqb b a then 1 else 0) + countByte a s'
  end.

(** [strings.TrimSpace] on strings of ASCII bytes, for the examples:
    the white space is tab, line feed, vertical tab, form feed,
    carriage return and space. *)
Definition asciiSpace (a : ascii) : bool :=
  let n := nat_of_ascii a in
  ((9 <=? n) && (n <=? 13) || (n =? 32))%nat.

Fixpoint trimLeft (s : string) : string :=
  match s with
  | EmptyString => EmptyString
  | String a s' => if asciiSpace a then trimLeft s' else s
  end.

Fixpoint trimRight (s : string) : string :=
  match s with
  | EmptyString => EmptyString
  | String a s' =>
      match trimRight s' with
      | EmptyString => if asciiSpace a then EmptyString else String a EmptyString
      | t => String a t
      end
  end.

Definition asciiTrimSpace (s : string) : string := trimRight (trimLeft s).

(* ================================================================== *)
(** ** An in-memory host *)

(** A fabricated repository host that implements the calls of [gitE]
    over a table of references, a commit store and a table of pull
    requests.  It plays the part of the remote host in examples: it
    refuses to create a reference that exists, pages commit listings,
    and refuses to delete a protected reference. *)
Module MemHost.

Record t : Type := mk
  { refs : list (string * string);
    commits : list Commit.t;
    pulls : list (Z * (PullRequest.t * list string));
    protected : list string;
    pageSize : nat;
    fresh : nat }.

Fixpoint lookup {A : Type} (k : string) (m : list (string * A)) : option A :=
  match m with
  | [] => None
  | (k', v) :: m' => if String.eqb k k' then Some v else lookup k m'
  end.

Fixpoint update {A : Type} (k : string) (v : A) (m : list (string * A)) : list (string * A) :=
  match m with
  | [] => []
  | (k', v') :: m' => if String.eqb k k' then (k', v) :: m' else (k', v') :: update k v m'
  end.

Fixpoint remove {A : Type} (k : string) (m : list (string * A)) : list (string * A) :=
  match m with
  | [] => []
  | (k', v') :: m' => if String.eqb k k' then m' else (k', v') :: remove k m'
  end.

Definition findCommit (sha : string) (s : t) : option Commit.t :=
  List.find (fun c => String.eqb (Commit.GetSHA c) sha) (commits s).

Definition findPull (number : Z) (s : t) : option (PullRequest.t * list string) :=
  option_map snd (List.find (fun p => Z.eqb (fst p) number) (pulls s)).

Definition setRefs (s : t) (r : list (string * string)) : t :=
  mk r (commits s) (pulls s) (protected s) (pageSize s) (fresh s).

(** Store a commit under a sha the host has not used before. *)
Definition newSHA (s : t) : string :=
  "sha" ++ NilZero.string_of_uint (Nat.to_uint (fresh s)).

Definition store (s : t) (c : Commit.t) : t * Commit.t :=
  let c' := Commit.mk (Some (newSHA s)) (Commit.Message c) (Commit.Tree c) (Commit.Parents c) in
  (mk (refs s) (commits s ++ [c']) (pulls s) (protected s) (pageSize s) (S (fresh s)), c').

Definition targetSHA (ref : Reference.t) : string :=
  match Reference.Object ref with
  | Some o => GetString (GitObject.SHA o)
  | None => ""
  end.

Definition treeSHA (c : Commit.t) : string :=
  match Commit.Tree c with
  | Some tr => GetString (Tree.SHA tr)
  | None => ""
  end.

(** The tree of a merge, named after the trees it merges. *)
Definition mergedTree (base head : Commit.t) : Tree.t :=
  Tree.mk (Some ("merge(" ++ treeSHA base ++ "," ++ treeSHA head ++ ")")%string).

(** The page [opts] asks for, and the page that follows it. *)
Definition page (s : t) (opts : ListOptions.t) (shas : list string)
  : list RepositoryCommit.t * Response.t :=
  let per := if ListOptions.PerPage opts <=? 0 then pageSize s
             else Z.to_nat (ListOptions.PerPage opts) in
  let p := if ListOptions.Page opts <=? 0 then 1%nat
           else Z.to_nat (ListOptions.Page opts) in
  (List.map (fun sha => RepositoryCommit.mk (Some sha))
     (List.firstn per (List.skipn ((p - 1) * per) shas)),
   Response.mk (if (p * per <? List.length shas)%nat then Z.of_nat (S p) else 0)).

Definition serve : host t :=
  fun X e =>
    match e in gitE X return t -> t * X with
    | Repositories_GetBranch _ _ branch _ => fun s =>
        match lookup (refName branch) (refs s) with
        | Some sha => (s, inr (Branch.mk (Some (RepositoryCommit.mk (Some sha)))))
        | None => (s, inl (HostError "Branch not found"))
        end
    | Repositories_Merge _ _ request => fun s =>
        match lookup (refName (GetString (RepositoryMergeRequest.Base request))) (refs s) with
        | None => (s, inl (HostError "Base does not exist"))
        | Some baseSHA =>
            match findCommit baseSHA s,
                  findCommit (GetString (RepositoryMergeRequest.Head request)) s with
            | Some base, Some head =>
                let '(s', m) :=
                  store s (Commit.mk None (Some "Merge") (Some (mergedTree base head)) [base; head]) in
                (setRefs s' (update (refName (GetString (RepositoryMergeRequest.Base request)))
                               (Commit.GetSHA m) (refs s')),
                 inr (RepositoryCommit.mk (Commit.SHA m)))
            | _, _ => (s, inl (HostError "Head does not exist"))
            end
        end
    | Git_GetCommit _ _ sha => fun s =>
        match findCommit sha s with
        | Some c => (s, inr c)
        | None => (s, inl (HostError "Not Found"))
        end
    | Git_CreateCommit _ _ commit => fun s =>
        let '(s', c') := store s commit in (s', inr c')
    | Git_CreateRef _ _ ref => fun s =>
        let name := GetString (Reference.Ref ref) in
        match lookup name (refs s) with
        | Some _ => (s, inl (HostError "Reference already exists"))
        | None => (setRefs s (refs s ++ [(name, targetSHA ref)]), inr ref)
        end
    | Git_UpdateRef _ _ ref _ => fun s =>
        let name := GetString (Reference.Ref ref) in
        match lookup name (refs s) with
        | Some _ => (setRefs s (update name (targetSHA ref) (refs s)), inr ref)
        | None => (s, inl (HostError "Reference does not exist"))
        end
    | Git_DeleteRef _ _ ref => fun s =>
        if List.existsb (String.eqb ref) (protected s)
        then (s, inl (HostError "Cannot delete a protected branch"))
        else match lookup ref (refs s) with
             | Some _ => (setRefs s (remove ref (refs s)), inr tt)
             | None => (s, inl (HostError "Reference does not exist"))
             end
    | PullRequests_Get _ _ number => fun s =>
        match findPull number s with
        | Some (pull, _) => (s, inr pull)
        | None => (s, inl (HostError "Not Found"))
        end
    | PullRequests_ListCommits _ _ number opts => fun s =>
        match findPull number s with
        | Some (_, shas) => (s, inr (page s opts shas))
        | None => (s, inl (HostError "Not Found"))
        end
    | PullRequests_Create _ _ pull => fun s =>
        (s, inr (PullRequest.mk None (Some "open")
                   (Some (PullRequestBranch.mk (NewPullRequest.Base pull)))
                   (Some (PullRequestBranch.mk (NewPullRequest.Head pull)))))
    end.

End MemHost.

(** *** A small repository

    [master] is at commit [A]; the closed pull request 7, from
    [feature-x] onto [master], has the commits [C1] (on [A]) and [C2]
    (on [C1]); [release/1.0] is at [R], and [M] is a merge commit. *)
Module Example.

Definition tree (s : string) : option Tree.t := Some (Tree.mk (Some s)).

Definition stub (sha : string) : Commit.t := Commit.mk (Some sha) None None [].

Definition A : Commit.t := Commit.mk (Some "A") (Some "initial") (tree "tA") [].
Definition R : Commit.t := Commit.mk (Some "R") (Some "release") (tree "tR") [stub "A"].
Definition C1 : Commit.t := Commit.mk (Some "C1") (Some "add X") (tree "tC1") [stub "A"].
Definition C2 : Commit.t := Commit.mk (Some "C2") (Some "change X") (tree "tC2") [stub "C1"].
Definition M : Commit.t := Commit.mk (Some "M") (Some "merge") (tree "tM") [stub "C1"; stub "R"].

Definition pr7 : PullRequest.t :=
  PullRequest.mk (Some 7) (Some "closed")
    (Some (PullRequestBranch.mk (Some "refs/heads/master")))
    (Some (PullRequestBranch.mk (Some "refs/heads/feature-x"))).

(** An open pull request, and a closed one onto a release branch. *)
Definition pr8 : PullRequest.t :=
  PullRequest.mk (Some 8) (Some "open")
    (Some (PullRequestBranch.mk (Some "master")))
    (Some (PullRequestBranch.mk (Some "feature-y"))).

Definition pr9 : PullRequest.t :=
  PullRequest.mk (Some 9) (Some "closed")
    (Some (PullRequestBranch.mk (Some "release/1.0")))
    (Some (PullRequestBranch.mk (Some "fix-z"))).

Definition repo : MemHost.t :=
  MemHost.mk
    [("refs/heads/master", "A"); ("refs/heads/release/1.0", "R")]
    [A; R; C1; C2; M]
    [(7, (pr7, ["C1"; "C2"])); (8, (pr8, ["C1"])); (9, (pr9, ["C2"]))]
    []
    30
    0.

Definition clt : Client :=
  mkClient (NewClient "token") (mkConfig "token" "gravitational" "teleport").

End Example.

(* ================================================================== *)
(** *** Hosts for the examples *)

Module Scenario.

Import Example.

Definition newBranch : string := "auto-backport/release/1.0/feature-x".

(** The repository once the backport branch exists, at [R]. *)
Definition started : MemHost.t :=
  MemHost.setRefs repo (MemHost.refs repo ++ [(("refs/heads/" ++ newBranch)%string, "R")]).

(** The repository with the backport branch protected from deletion. *)
Definition locked : MemHost.t :=
  MemHost.mk (MemHost.refs repo) (MemHost.commits repo) (MemHost.pulls repo)
    [("refs/heads/" ++ newBranch)%string] (MemHost.pageSize repo) (MemHost.fresh repo).

(** [locked] once the backport branch exists, at [R]. *)
Definition stuck : MemHost.t :=
  MemHost.setRefs locked (MemHost.refs repo ++ [(("refs/heads/" ++ newBranch)%string, "R")]).

(** The repository on a host that lists one commit per page. *)
Definition paged : MemHost.t :=
  MemHost.mk (MemHost.refs repo) (MemHost.commits repo) (MemHost.pulls repo)
    (MemHost.protected repo) 1 (MemHost.fresh repo).

(** A host whose every listing succeeds and announces a next page. *)
Definition stubborn : host unit :=
  fun X e =>
    match e in gitE X return unit -> unit * X with
    | PullRequests_ListCommits _ _ _ _ => fun u => (u, inr ([], Response.mk 1))
    | _ => fun u => (u, inl (HostError "Not Found"))
    end.


End Scenario.

(* ================================================================== *)
(** * Lemmas and theorems *)

(* ================================================================== *)
(** ** Runs *)

Section Runs.

Context {G : Type} (h : host G).

Lemma run_S {R} (n : nat) (t : itree gitE R) (g : G) (o : G * list call * R) :
  run h n t g = Some o -> run h (S n) t g = Some o.
Proof.
  revert t g o. induction n as [|n IH]; intros t g o; [discriminate|].
  cbn [run]. destruct (observe t) as [r|t'|X e k].
  - auto.
  - intros H. apply IH in H. exact H.
  - destruct (h _ e g) as [g' x].
    destruct (run h n (k x) g') as [[[g'' l] r]|] eqn:E; [|discriminate].
    apply IH in E. cbn [run] in E. rewrite E. auto.
Qed.

Lemma run_mono {R} (n m : nat) (t : itree gitE R) (g : G) (o : G * list call * R) :
  run h n t g = Some o -> (n <= m)%nat -> run h m t g = Some o.
Proof.
  intros H Hle. induction Hle; [exact H|]. apply run_S. assumption.
Qed.

Lemma run_bind_obs {R T} (t : itree gitE R) (k : R -> itree gitE T) :
  observe (ITree.bind t k) =
  observe (match observe t with
           | RetF r => k r
           | TauF t' => Tau (ITree.bind t' k)
           | VisF e ke => Vis e (fun x => ITree.bind (ke x) k)
           end).
Proof. reflexivity. Qed.

Lemma run_iter_obs {I R} (body : I -> itree gitE (I + R)) (i : I) :
  observe (ITree.iter body i) =
  observe (ITree.bind (body i) (fun lr =>
             match lr with
             | inl i' => Tau (ITree.iter body i')
             | inr r => Ret r
             end)).
Proof. reflexivity. Qed.

(** [run] looks at a tree through [observe] only. *)
Lemma run_observe {R} (n : nat) (t t' : itree gitE R) (g : G) :
  observe t = observe t' -> run h n t g = run h n t' g.
Proof.
  intros E. destruct n as [|n]; [reflexivity|]. cbn [run]. rewrite E. reflexivity.
Qed.

Lemma run_det {R} (n m : nat) (t : itree gitE R) (g : G) (o o' : G * list call * R) :
  run h n t g = Some o -> run h m t g = Some o' -> o = o'.
Proof.
  intros Hn Hm.
  apply run_mono with (m := Nat.max n m) in Hn; [|apply Nat.le_max_l].
  apply run_mono with (m := Nat.max n m) in Hm; [|apply Nat.le_max_r].
  congruence.
Qed.

Lemma run_bind {R T} (n m : nat) (t : itree gitE R) (k : R -> itree gitE T)
    (g g1 g2 : G) (l1 l2 : list call) (a : R) (r : T) :
  run h n t g = Some (g1, l1, a) ->
  run h m (k a) g1 = Some (g2, l2, r) ->
  run h (n + m) (ITree.bind t k) g = Some (g2, l1 ++ l2, r).
Proof.
  revert t g g1 l1. induction n as [|n IH]; intros t g g1 l1 Ht Hk; [discriminate|].
  cbn [run] in Ht. destruct (observe t) as [a'|t'|X e ke] eqn:Et.
  - injection Ht as Eg El Ea. subst g1 l1 a'.
    rewrite (run_observe _ (ITree.bind t k) (k a) g)
      by (rewrite run_bind_obs, Et; reflexivity).
    apply run_mono with (n := m); [exact Hk | lia].
  - change (S n + m)%nat with (S (n + m)). cbn [run].
    rewrite run_bind_obs, Et. cbn [observe _observe].
    eapply IH; eassumption.
  - change (S n + m)%nat with (S (n + m)). cbn [run].
    rewrite run_bind_obs, Et. cbn [observe _observe].
    destruct (h _ e g) as [g' x].
    destruct (run h n (ke x) g') as [[[g'' l] r']|] eqn:E; [|discriminate].
    injection Ht as <- <- <-.
    rewrite (IH _ _ _ _ E Hk). reflexivity.
Qed.

Lemma run_bind_inv {R T} (n : nat) (t : itree gitE R) (k : R -> itree gitE T)
    (g g2 : G) (l : list call) (r : T) :
  run h n (ITree.bind t k) g = Some (g2, l, r) ->
  exists g1 l1 a l2,
    run h n t g = Some (g1, l1, a) /\
    run h n (k a) g1 = Some (g2, l2, r) /\
    l = l1 ++ l2.
Proof.
  revert t g l. induction n as [|n IH]; intros t g l Hb; [discriminate|].
  pose proof Hb as Hb'. cbn [run] in Hb.
  rewrite run_bind_obs in Hb.
  destruct (observe t) as [a|t'|X e ke] eqn:Et.
  - exists g, [], a, l. split; [cbn [run]; rewrite Et; reflexivity|].
    split; [|reflexivity].
    rewrite <- Hb'. symmetry. apply run_observe.
    rewrite run_bind_obs, Et. reflexivity.
  - cbn [observe _observe] in Hb.
    destruct (IH _ _ _ Hb) as (g1 & l1 & a & l2 & H1 & H2 & ->).
    exists g1, l1, a, l2. split; [cbn [run]; rewrite Et; exact H1|].
    split; [|reflexivity]. apply run_S. exact H2.
  - cbn [observe _observe] in Hb.
    destruct (h _ e g) as [g' x] eqn:Eh.
    destruct (run h n (ITree.bind (ke x) k) g') as [[[g'' l'] r']|] eqn:E; [|discriminate].
    injection Hb as <- <- <-.
    destruct (IH _ _ _ E) as (g1 & l1 & a & l2 & H1 & H2 & ->).
    exists g1, (Call e :: l1), a, l2.
    split; [cbn [run]; rewrite Et, Eh, H1; reflexivity|].
    split; [|reflexivity]. apply run_S. exact H2.
Qed.

(** *** Rules for [Returns] *)

Lemma Returns_det {R} (t : itree gitE R) (g g1 g2 : G) (l1 l2 : list call) (r1 r2 : R) :
  Returns h t g g1 l1 r1 -> Returns h t g g2 l2 r2 ->
  g1 = g2 /\ l1 = l2 /\ r1 = r2.
Proof.
  intros [n Hn] [m Hm]. pose proof (run_det _ _ _ _ _ _ Hn Hm) as E.
  injection E as -> -> ->. auto.
Qed.

Lemma Returns_not_Diverges {R} (t : itree gitE R) (g g' : G) (l : list call) (r : R) :
  Returns h t g g' l r -> ~ Diverges h t g.
Proof. intros [n Hn] D. rewrite (D n) in Hn. discriminate. Qed.

Lemma Returns_ret {R} (r : R) (g : G) : Returns h (Ret r) g g [] r.
Proof. exists 1%nat. reflexivity. Qed.

Lemma Returns_ret_inv {R} (r r' : R) (g g' : G) (l : list call) :
  Returns h (Ret r) g g' l r' -> g' = g /\ l = [] /\ r' = r.
Proof.
  intros H. destruct (Returns_det _ _ _ _ _ _ _ _ H (Returns_ret r g)) as (-> & -> & ->). auto.
Qed.

Lemma Returns_trigger {X} (e : gitE X) (g g1 : G) (x : X) :
  h _ e g = (g1, x) -> Returns h (ITree.trigger e) g g1 [Call e] x.
Proof. intros E. exists 2%nat. cbn. rewrite E. reflexivity. Qed.

Lemma Returns_bind {R T} (t : itree gitE R) (k : R -> itree gitE T)
    (g g1 g2 : G) (l1 l2 : list call) (a : R) (r : T) :
  Returns h t g g1 l1 a -> Returns h (k a) g1 g2 l2 r ->
  Returns h (ITree.bind t k) g g2 (l1 ++ l2) r.
Proof. intros [n Hn] [m Hm]. exists (n + m)%nat. eapply run_bind; eassumption. Qed.

Lemma Returns_bind_inv {R T} (t : itree gitE R) (k : R -> itree gitE T)
    (g g2 : G) (l : list call) (r : T) :
  Returns h (ITree.bind t k) g g2 l r ->
  exists g1 l1 a l2,
    Returns h t g g1 l1 a /\ Returns h (k a) g1 g2 l2 r /\ l = l1 ++ l2.
Proof.
  intros [n Hn]. destruct (run_bind_inv _ _ _ _ _ _ _ Hn) as (g1 & l1 & a & l2 & H1 & H2 & ->).
  exists g1, l1, a, l2. repeat split; eexists; eassumption.
Qed.

(** A call followed by the rest of the program. *)
Lemma Returns_call {X R} (e : gitE X) (k : X -> itree gitE R)
    (g g1 g2 : G) (x : X) (l : list call) (r : R) :
  h _ e g = (g1, x) -> Returns h (k x) g1 g2 l r ->
  Returns h (ITree.bind (ITree.trigger e) k) g g2 (Call e :: l) r.
Proof.
  intros E Hk. change (Call e :: l) with ([Call e] ++ l).
  eapply Returns_bind; [apply Returns_trigger; exact E | exact Hk].
Qed.

Lemma Returns_call_inv {X R} (e : gitE X) (k : X -> itree gitE R)
    (g g2 : G) (l : list call) (r : R) :
  Returns h (ITree.bind (ITree.trigger e) k) g g2 l r ->
  exists g1 x l',
    h _ e g = (g1, x) /\ Returns h (k x) g1 g2 l' r /\ l = Call e :: l'.
Proof.
  intros H. destruct (Returns_bind_inv _ _ _ _ _ _ H) as (g1 & l1 & a & l2 & H1 & H2 & ->).
  destruct (h _ e g) as [g' x] eqn:E.
  destruct (Returns_det _ _ _ _ _ _ _ _ H1 (Returns_trigger e g _ _ E)) as (-> & -> & ->).
  exists g', x, l2. auto.
Qed.

Lemma Returns_tau {R} (t : itree gitE R) (g g' : G) (l : list call) (r : R) :
  Returns h (Tau t) g g' l r <-> Returns h t g g' l r.
Proof.
  split; intros [n Hn].
  - destruct n as [|n]; [discriminate|]. exists n. exact Hn.
  - exists (S n). exact Hn.
Qed.

(** One round of a loop. *)
Lemma Returns_iter {I R} (body : I -> itree gitE (I + R)) (i : I)
    (g g' : G) (l : list call) (r : R) :
  Returns h (ITree.iter body i) g g' l r <->
  exists g1 l1 a l2,
    Returns h (body i) g g1 l1 a /\
    match a with
    | inl i' => Returns h (ITree.iter body i') g1 g' l2 r
    | inr r' => g' = g1 /\ l2 = [] /\ r = r'
    end /\
    l = l1 ++ l2.
Proof.
  split.
  - intros [n Hn]. rewrite (run_observe _ _ _ _ (run_iter_obs body i)) in Hn.
    destruct (run_bind_inv _ _ _ _ _ _ _ Hn) as (g1 & l1 & a & l2 & H1 & H2 & ->).
    exists g1, l1, a, l2. split; [eexists; eassumption|]. split; [|reflexivity].
    destruct a as [i'|r'].
    + apply Returns_tau. eexists; eassumption.
    + apply Returns_ret_inv. eexists; eassumption.
  - intros (g1 & l1 & a & l2 & H1 & H2 & ->).
    assert (Returns h (ITree.bind (body i) (fun lr =>
              match lr with
              | inl i' => Tau (ITree.iter body i')
              | inr r => Ret r
              end)) g g' (l1 ++ l2) r) as [n Hn].
    { eapply Returns_bind; [exact H1|]. destruct a as [i'|r'].
      - apply Returns_tau. exact H2.
      - destruct H2 as (-> & -> & ->). apply Returns_ret. }
    exists n. rewrite (run_observe _ _ _ _ (run_iter_obs body i)). exact Hn.
Qed.

(** A loop whose rounds all ask for another round never returns. *)
Lemma Diverges_iter {I R} (body : I -> itree gitE (I + R)) (Inv : I -> G -> Prop) :
  (forall i g, Inv i g ->
     exists g1 l1 i', Returns h (body i) g g1 l1 (inl i') /\ Inv i' g1) ->
  forall i g, Inv i g -> Diverges h (ITree.iter body i) g.
Proof.
  intros Hstep i g Hi n. revert i g Hi.
  induction n as [n IH] using lt_wf_ind. intros i g Hi.
  destruct (run h n (ITree.iter body i) g) as [[[g' l] r]|] eqn:E; [|reflexivity].
  exfalso.
  rewrite (run_observe _ _ _ _ (run_iter_obs body i)) in E.
  destruct (run_bind_inv _ _ _ _ _ _ _ E) as (g1 & l1 & a & l2 & H1 & H2 & ->).
  destruct (Hstep i g Hi) as (g1' & l1' & i' & Hb & Hi').
  assert (Returns h (body i) g g1 l1 a) as H1' by (eexists; eassumption).
  destruct (Returns_det _ _ _ _ _ _ _ _ H1' Hb) as (-> & -> & ->).
  destruct n as [|n]; [discriminate|]. cbn [run observe _observe] in H2.
  rewrite (IH n (Nat.lt_succ_diag_r n) i' g1' Hi') in H2. discriminate.
Qed.

(** Induction on the rounds of a loop that returns. *)
Lemma Returns_iter_ind {I R} (body : I -> itree gitE (I + R))
    (P : I -> G -> G -> list call -> R -> Prop) :
  (forall i g g1 l1 r,
     Returns h (body i) g g1 l1 (inr r) -> P i g g1 l1 r) ->
  (forall i g g1 l1 i' g' l2 r,
     Returns h (body i) g g1 l1 (inl i') ->
     Returns h (ITree.iter body i') g1 g' l2 r ->
     P i' g1 g' l2 r -> P i g g' (l1 ++ l2) r) ->
  forall i g g' l r, Returns h (ITree.iter body i) g g' l r -> P i g g' l r.
Proof.
  intros Hlast Hmore i g g' l r [n Hn]. revert i g l Hn.
  induction n as [n IH] using lt_wf_ind. intros i g l Hn.
  rewrite (run_observe _ _ _ _ (run_iter_obs body i)) in Hn.
  destruct (run_bind_inv _ _ _ _ _ _ _ Hn) as (g1 & l1 & a & l2 & H1 & H2 & ->).
  assert (Returns h (body i) g g1 l1 a) as Hb by (eexists; eassumption).
  destruct a as [i'|r'].
  - destruct n as [|n]; [discriminate|]. cbn [run observe _observe] in H2.
    apply Hmore with (i' := i') (g1 := g1); [exact Hb | eexists; eassumption |].
    apply (IH n (Nat.lt_succ_diag_r n)). exact H2.
  - assert (Returns h (Ret r') g1 g' l2 r) as Hr by (eexists; eassumption).
    apply Returns_ret_inv in Hr. destruct Hr as (-> & -> & ->).
    rewrite app_nil_r. apply Hlast. exact Hb.
Qed.

End Runs.

(* ================================================================== *)
(** ** Runs and the library's interpretation

    [Returns] is the library's semantics of the program: interpreting
    the events with the host, the tree is a [Ret] up to silent steps. *)

Lemma run_interp_state {G R} (h : host G) (n : nat) :
  forall (t : itree gitE R) (g g' : G) (l l0 : list call) (r : R),
  run h n t g = Some (g', l, r) ->
  interp_state (logged h) t (g, l0) ≈ Ret ((g', l0 ++ l), r).
Proof.
  induction n as [|n IH]; intros t g g' l l0 r Hn; [discriminate|].
  cbn [run] in Hn. rewrite (itree_eta t).
  destruct (observe t) as [r'|t'|X e k].
  - injection Hn as <- <- <-. rewrite interp_state_ret, app_nil_r. reflexivity.
  - rewrite interp_state_tau, tau_eutt. apply IH. exact Hn.
  - rewrite interp_state_vis. unfold logged at 1. cbn [fst snd].
    destruct (h X e g) as [g1 x].
    destruct (run h n (k x) g1) as [[[g'' l'] r']|] eqn:E; [|discriminate].
    injection Hn as <- <- <-.
    rewrite bind_ret_l. cbn [fst snd]. rewrite tau_eutt.
    rewrite (IH _ _ _ _ _ _ E), <- app_assoc. reflexivity.
Qed.

Lemma eutt_Ret_lands {X} (u : itree void1 X) (v : X) :
  u ≈ Ret v -> exists n, lands n u v.
Proof.
  intros H. punfold H. red in H. cbn in H.
  remember (RetF v) as o eqn:Eo. remember (observe u) as ou eqn:Eu.
  revert u Eu. induction H; intros w Ew; try discriminate.
  - injection Eo as <-. exists 1%nat. cbn. rewrite <- Ew. exact REL.
  - destruct (IHeqitF Eo t1 eq_refl) as [n Hn]. exists (S n). cbn. rewrite <- Ew. exact Hn.
Qed.

Lemma lands_eq_itree {X} (n : nat) :
  forall (u u' : itree void1 X) (v : X), u ≅ u' -> lands n u v -> lands n u' v.
Proof.
  induction n as [|n IH]; intros u u' v Heq Hl; [exact Hl|].
  cbn [lands] in Hl |- *. punfold Heq. red in Heq.
  destruct Heq as [r1 r2 REL | m1 m2 REL | Y e k1 k2 REL | t1 ot2 CHECK _ | ot1 t2 CHECK _];
    try discriminate.
  - congruence.
  - pclearbot. eapply IH; eassumption.
  - exact Hl.
Qed.

Lemma lands_run {G R} (h : host G) (n : nat) :
  forall (t : itree gitE R) (g : G) (l0 : list call) (v : G * list call * R),
  lands n (interp_state (logged h) t (g, l0)) v ->
  exists g' l r, run h n t g = Some (g', l, r) /\ v = ((g', l0 ++ l), r).
Proof.
  induction n as [|n IH]; intros t g l0 v Hl; [destruct Hl|].
  apply (lands_eq_itree _ _ _ _ (unfold_interp_state (logged h) t (g, l0))) in Hl.
  cbn [run]. destruct (observe t) as [r|t'|X e k].
  - cbn in Hl. subst v. exists g, [], r. rewrite app_nil_r. auto.
  - cbn in Hl. exact (IH _ _ _ _ Hl).
  - cbn [_interp_state] in Hl. unfold logged at 1 in Hl. cbn [fst snd] in Hl.
    destruct (h X e g) as [g1 x]. cbn in Hl.
    destruct (IH _ _ _ _ Hl) as (g' & l & r & Hr & ->).
    exists g', (Call e :: l), r. rewrite Hr, <- app_assoc. auto.
Qed.

Theorem Returns_interp_state {G R} (h : host G) (t : itree gitE R) (g g' : G)
    (l : list call) (r : R) :
  Returns h t g g' l r <->
  interp_state (logged h) t (g, []) ≈ Ret ((g', l), r).
Proof.
  split.
  - intros [n Hn]. exact (run_interp_state h n t g g' l [] r Hn).
  - intros H. apply eutt_Ret_lands in H. destruct H as [n Hn].
    apply lands_run in Hn. destruct Hn as (g1 & l1 & r1 & Hr & E).
    cbn [app] in E. injection E as -> -> ->. exists n. exact Hr.
Qed.

Theorem Diverges_interp_state {G R} (h : host G) (t : itree gitE R) (g : G) :
  Diverges h t g <->
  forall v, ~ interp_state (logged h) t (g, []) ≈ Ret v.
Proof.
  split.
  - intros D [[g' l] r] H. apply Returns_interp_state in H.
    exact (Returns_not_Diverges h t g g' l r H D).
  - intros H n. destruct (run h n t g) as [[[g' l] r]|] eqn:E; [|reflexivity].
    exfalso. apply (H ((g', l), r)). apply Returns_interp_state. exists n. exact E.
Qed.

(* ================================================================== *)
(** ** The string helpers *)

Example TrimPrefix_branch : TrimPrefix "refs/heads/master" "refs/heads/" = "master".
Proof. reflexivity. Qed.

Example TrimPrefix_bare : TrimPrefix "master" "refs/heads/" = "master".
Proof. reflexivity. Qed.

Example TrimPrefix_once :
  TrimPrefix "refs/heads/refs/heads/x" "refs/heads/" = "refs/heads/x".
Proof. reflexivity. Qed.








Example Itoa_examples : Itoa 0 = "0" /\ Itoa 1234 = "1234" /\ Itoa (-7) = "-7".
Proof. repeat split. Qed.

Example generateTitleAndBody_example :
  generateTitleAndBody 1234 "branch/v7" = "Backport #1234 to branch/v7".
Proof. reflexivity. Qed.

(* ================================================================== *)
(** ** Decimal rendering *)

Lemma to_uint_nonnil (p : positive) : Pos.to_uint p <> Decimal.Nil.
Proof. apply DecimalPos.Unsigned.to_uint_nonnil. Qed.

Lemma Atoi_Itoa (n : Z) : Atoi (Itoa n) = Some n.
Proof.
  unfold Atoi, Itoa. rewrite NilZero.isi.
  - cbn [option_map]. rewrite DecimalZ.of_to. reflexivity.
  - destruct n; cbn; try discriminate.
    intros E. injection E as E. exact (to_uint_nonnil _ E).
  - destruct n; cbn; try discriminate.
    intros E. injection E as E. exact (to_uint_nonnil _ E).
Qed.

(* ================================================================== *)
(** ** Configuration *)

Lemma Check_None (c : Config) :
  Check c = None <-> Token c <> "" /\ Organization c <> "" /\ Repository c <> "".
Proof.
  unfold Check.
  destruct (String.eqb_spec (Token c) ""), (String.eqb_spec (Organization c) ""),
    (String.eqb_spec (Repository c) ""); split; intros H;
    try discriminate; try tauto.
Qed.

(** C10.  [New] returns an error exactly when the token, the
    organization or the repository of the configuration is the empty
    string; otherwise it returns a client that carries the
    configuration unchanged. *)
Theorem New_spec (c : Config) :
  ((exists err, New c = inl err) <->
   Token c = "" \/ Organization c = "" \/ Repository c = "") /\
  ((exists err, New c = inl err) \/
   New c = inr (mkClient (NewClient (Token c)) c)).
Proof.
  unfold New. destruct (Check c) as [err|] eqn:E.
  - split; [|left; eauto]. split; [intros _|eauto].
    destruct (String.eqb_spec (Token c) ""); [tauto|].
    destruct (String.eqb_spec (Organization c) ""); [tauto|].
    destruct (String.eqb_spec (Repository c) ""); [tauto|].
    assert (Check c = None) as E' by (apply Check_None; auto). congruence.
  - apply Check_None in E. destruct E as (Ht & Ho & Hr).
    split; [|right; reflexivity]. split.
    + intros [err H]. discriminate.
    + tauto.
Qed.

(* ================================================================== *)
(** ** Pull-request title and body *)

Lemma Returns_bind_eq {G} (h : host G) {R T} (t : itree gitE R) (k : R -> itree gitE T)
    (g g1 g2 : G) (l l1 l2 : list call) (a : R) (r : T) :
  Returns h t g g1 l1 a -> Returns h (k a) g1 g2 l2 r -> l = l1 ++ l2 ->
  Returns h (ITree.bind t k) g g2 l r.
Proof. intros H1 H2 ->. eapply Returns_bind; eassumption. Qed.

(** Run one call whose answer is a hypothesis, or is computed. *)
Ltac call_step :=
  eapply Returns_call; [first [eassumption | reflexivity]|]; cbn beta iota.

(** C7.  For every pull-request number [N] and target branch [T] the
    generated text is ["Backport #<N> to <T>"] with [N] in decimal, and
    [CreatePullRequest] sends that one string as the title and as the
    body of the pull request it asks the host to create. *)
Theorem generateTitleAndBody_spec (N : Z) (T : string) (c : Client)
    (baseBranch headBranch : string) (G : Type) (h : host G) (g : G) :
  let text := ("Backport #" ++ Itoa N ++ " to " ++ T)%string in
  let e := PullRequests_Create (org c) (rep c)
             {| NewPullRequest.Title := Some text;
                NewPullRequest.Head := Some headBranch;
                NewPullRequest.Base := Some baseBranch;
                NewPullRequest.Body := Some text;
                NewPullRequest.MaintainerCanModify := Some true |} in
  generateTitleAndBody N T = text /\
  Atoi (Itoa N) = Some N /\
  Returns h (CreatePullRequest c baseBranch headBranch (generateTitleAndBody N T)) g
    (fst (h _ e g)) [Call e]
    (match snd (h _ e g) with inl err => Some err | inr _ => None end).
Proof.
  intros text e. split; [reflexivity|]. split; [apply Atoi_Itoa|].
  unfold CreatePullRequest. fold text. fold e.
  eapply Returns_call with (x := snd (h _ e g)); [apply surjective_pairing|].
  destruct (snd (h _ e g)); apply Returns_ret.
Qed.

(* ================================================================== *)
(** ** The cherry-pick step *)

Section Step.

Context {G : Type} (h : host G) (c : Client).

Lemma createSiblingCommit_ok (branchName : string) (tip parent sib : Commit.t)
    (ref : Reference.t) (g g1 g2 : G) :
  h _ (Git_CreateCommit (org c) (rep c) (siblingCommit tip parent)) g = (g1, inr sib) ->
  h _ (Git_UpdateRef (org c) (rep c) (branchRef branchName (Commit.GetSHA sib)) true) g1
    = (g2, inr ref) ->
  Returns h (createSiblingCommit c branchName tip parent) g g2
    [Call (Git_CreateCommit (org c) (rep c) (siblingCommit tip parent));
     Call (Git_UpdateRef (org c) (rep c) (branchRef branchName (Commit.GetSHA sib)) true)]
    None.
Proof.
  intros H1 H2. unfold createSiblingCommit.
  call_step. call_step. apply Returns_ret.
Qed.

Lemma merge_ok (base headSHA : string) (m : RepositoryCommit.t) (mc : Commit.t)
    (g g1 g2 : G) :
  let req := {| RepositoryMergeRequest.Base := Some base;
                RepositoryMergeRequest.Head := Some headSHA |} in
  h _ (Repositories_Merge (org c) (rep c) req) g = (g1, inr m) ->
  h _ (Git_GetCommit (org c) (rep c) (RepositoryCommit.GetSHA (Some m))) g1 = (g2, inr mc) ->
  Returns h (merge c base headSHA) g g2
    [Call (Repositories_Merge (org c) (rep c) req);
     Call (Git_GetCommit (org c) (rep c) (RepositoryCommit.GetSHA (Some m)))]
    (inr mc).
Proof.
  intros req H1 H2. unfold merge. fold req.
  call_step. call_step. apply Returns_ret.
Qed.

(** C1.  A step on a commit with exactly one parent, all of whose
    calls succeed, makes these calls in this order: create the sibling
    commit (the tip's tree, the cherry commit's parent as only parent),
    force-update the branch to it, merge the cherry commit into the
    branch, fetch the merge commit, fetch the tip again, create the
    final commit (the cherry commit's message, the merge commit's tree,
    the re-fetched tip as only parent), force-update the branch to it;
    it returns the merge commit's tree and the final commit's sha. *)
Theorem cherryPickCommit_protocol (branchName : string)
    (cherry tip parent sib : Commit.t) (m : RepositoryCommit.t) (mc upd fin : Commit.t)
    (ref1 ref2 : Reference.t) (g g1 g2 g3 g4 g5 g6 g7 : G) :
  Commit.Parents cherry = [parent] ->
  h _ (Git_CreateCommit (org c) (rep c) (siblingCommit tip parent)) g = (g1, inr sib) ->
  h _ (Git_UpdateRef (org c) (rep c) (branchRef branchName (Commit.GetSHA sib)) true) g1
    = (g2, inr ref1) ->
  h _ (Repositories_Merge (org c) (rep c)
         {| RepositoryMergeRequest.Base := Some branchName;
            RepositoryMergeRequest.Head := Some (Commit.GetSHA cherry) |}) g2
    = (g3, inr m) ->
  h _ (Git_GetCommit (org c) (rep c) (RepositoryCommit.GetSHA (Some m))) g3 = (g4, inr mc) ->
  h _ (Git_GetCommit (org c) (rep c) (Commit.GetSHA tip)) g4 = (g5, inr upd) ->
  h _ (Git_CreateCommit (org c) (rep c) (finalCommit cherry (Commit.GetTree mc) upd)) g5
    = (g6, inr fin) ->
  h _ (Git_UpdateRef (org c) (rep c) (branchRef branchName (Commit.GetSHA fin)) true) g6
    = (g7, inr ref2) ->
  Returns h (cherryPickCommit c branchName cherry tip) g g7
    (stepCalls c branchName cherry tip parent sib m mc upd fin)
    (inr (Commit.GetTree mc, Commit.GetSHA fin)) /\
  Commit.Tree (siblingCommit tip parent) = Commit.Tree tip /\
  Commit.Parents (siblingCommit tip parent) = [parent] /\
  Commit.Message (finalCommit cherry (Commit.GetTree mc) upd) = Commit.Message cherry /\
  Commit.Tree (finalCommit cherry (Commit.GetTree mc) upd) = Commit.Tree mc /\
  Commit.Parents (finalCommit cherry (Commit.GetTree mc) upd) = [upd] /\
  branchRef branchName (Commit.GetSHA fin) =
    {| Reference.Ref := Some ("refs/heads/" ++ branchName)%string;
       Reference.Object := Some {| GitObject.SHA := Some (Commit.GetSHA fin) |} |}.
Proof.
  intros HP H1 H2 H3 H4 H5 H6 H7.
  split; [|repeat split].
  unfold cherryPickCommit. rewrite HP.
  eapply Returns_bind_eq; [eapply createSiblingCommit_ok; eassumption| |reflexivity].
  cbn beta iota.
  eapply Returns_bind_eq; [eapply merge_ok; eassumption| |reflexivity].
  cbn beta iota.
  call_step. call_step. call_step. apply Returns_ret.
Qed.

(** A commit that does not have exactly one parent is refused before
    any call is made. *)
Lemma cherryPickCommit_guard (branchName : string) (cherry tip : Commit.t) (g : G) :
  List.length (Commit.Parents cherry) <> 1%nat ->
  Returns h (cherryPickCommit c branchName cherry tip) g g []
    (inl (BadParameter "merge commits are not supported")).
Proof.
  intros HP. unfold cherryPickCommit.
  destruct (Commit.Parents cherry) as [|p [|q ps]]; try apply Returns_ret.
  cbn in HP. congruence.
Qed.

End Step.

(* ================================================================== *)
(** ** The engine *)

Section Engine.

Context {G : Type} (h : host G) (c : Client).

Lemma createBranchFrom_ok (branchFromName newBranch : string) (b : Branch.t)
    (ref : Reference.t) (g g1 g2 : G) :
  h _ (Repositories_GetBranch (org c) (rep c) branchFromName true) g = (g1, inr b) ->
  h _ (Git_CreateRef (org c) (rep c)
         (branchRef newBranch (RepositoryCommit.GetSHA (Branch.GetCommit b)))) g1
    = (g2, inr ref) ->
  Returns h (createBranchFrom c branchFromName newBranch) g g2
    [Call (Repositories_GetBranch (org c) (rep c) branchFromName true);
     Call (Git_CreateRef (org c) (rep c)
             (branchRef newBranch (RepositoryCommit.GetSHA (Branch.GetCommit b))))]
    None.
Proof.
  intros H1 H2. unfold createBranchFrom.
  call_step. call_step. apply Returns_ret.
Qed.

Lemma createBranchFrom_exists (branchFromName newBranch : string) (b : Branch.t)
    (err : error) (g g1 g2 : G) :
  h _ (Repositories_GetBranch (org c) (rep c) branchFromName true) g = (g1, inr b) ->
  h _ (Git_CreateRef (org c) (rep c)
         (branchRef newBranch (RepositoryCommit.GetSHA (Branch.GetCommit b)))) g1
    = (g2, inl err) ->
  Returns h (createBranchFrom c branchFromName newBranch) g g2
    [Call (Repositories_GetBranch (org c) (rep c) branchFromName true);
     Call (Git_CreateRef (org c) (rep c)
             (branchRef newBranch (RepositoryCommit.GetSHA (Branch.GetCommit b))))]
    (Some (Wrap err)).
Proof.
  intros H1 H2. unfold createBranchFrom.
  call_step. call_step. apply Returns_ret.
Qed.

(** *** The loop over the commits *)

Lemma cherryPickLoop_ok (branchName : string) (x : string) (rest : list string)
    (head cherry : Commit.t) (tree : option Tree.t) (sha : string)
    (g g1 g2 g3 : G) (l1 l2 : list call) (r : result Commit.t) :
  h _ (Git_GetCommit (org c) (rep c) x) g = (g1, inr cherry) ->
  Returns h (cherryPickCommit c branchName cherry head) g1 g2 l1 (inr (tree, sha)) ->
  Returns h (cherryPickLoop c branchName rest (setHead head tree sha)) g2 g3 l2 r ->
  Returns h (cherryPickLoop c branchName (x :: rest) head) g g3
    (Call (Git_GetCommit (org c) (rep c) x) :: l1 ++ l2) r.
Proof.
  intros H1 H2 H3. cbn [cherryPickLoop].
  call_step. eapply Returns_bind; [exact H2|]. exact H3.
Qed.

Lemma cherryPickLoop_fail (branchName : string) (x : string) (rest : list string)
    (head cherry : Commit.t) (err : error) (d : result unit)
    (g g1 g2 g3 : G) (l1 : list call) :
  h _ (Git_GetCommit (org c) (rep c) x) g = (g1, inr cherry) ->
  Returns h (cherryPickCommit c branchName cherry head) g1 g2 l1 (inl err) ->
  h _ (Git_DeleteRef (org c) (rep c) (refName branchName)) g2 = (g3, d) ->
  Returns h (cherryPickLoop c branchName (x :: rest) head) g g3
    (Call (Git_GetCommit (org c) (rep c) x) :: l1 ++
       [Call (Git_DeleteRef (org c) (rep c) (refName branchName))])
    (inl (Wrap err)).
Proof.
  intros H1 H2 H3. cbn [cherryPickLoop].
  call_step. eapply Returns_bind; [exact H2|]. cbn beta iota.
  call_step. apply Returns_ret.
Qed.

(** When the commit to pick cannot be fetched the loop returns at
    once: this path asks for no deletion. *)
Lemma cherryPickLoop_fetch_failure (branchName : string) (x : string) (rest : list string)
    (head : Commit.t) (err : error) (g g1 : G) :
  h _ (Git_GetCommit (org c) (rep c) x) g = (g1, inl err) ->
  Returns h (cherryPickLoop c branchName (x :: rest) head) g g1
    [Call (Git_GetCommit (org c) (rep c) x)] (inl (Wrap err)).
Proof.
  intros H1. cbn [cherryPickLoop]. call_step. apply Returns_ret.
Qed.

(** Picking [pre ++ rest] is picking [pre], then [rest] from the head
    commit [pre] ended with. *)
Lemma cherryPickLoop_app (branchName : string) (pre rest : list string) :
  forall (head head' : Commit.t) (g g1 g2 : G) (l1 l2 : list call) (r : result Commit.t),
  Returns h (cherryPickLoop c branchName pre head) g g1 l1 (inr head') ->
  Returns h (cherryPickLoop c branchName rest head') g1 g2 l2 r ->
  Returns h (cherryPickLoop c branchName (pre ++ rest) head) g g2 (l1 ++ l2) r.
Proof.
  induction pre as [|x pre IH]; intros head head' g g1 g2 l1 l2 r Hpre Hrest.
  - cbn [cherryPickLoop] in Hpre. apply Returns_ret_inv in Hpre.
    destruct Hpre as (-> & -> & E). injection E as ->. exact Hrest.
  - cbn [cherryPickLoop app] in Hpre |- *.
    apply Returns_call_inv in Hpre.
    destruct Hpre as (ga & [err|cherry] & l' & E & Hk & ->).
    + apply Returns_ret_inv in Hk. destruct Hk as (_ & _ & Hk). discriminate.
    + apply Returns_bind_inv in Hk.
      destruct Hk as (gb & la & [err|[tree sha]] & lb & Hstep & Hk & ->).
      * apply Returns_call_inv in Hk. destruct Hk as (gc & d & l'' & _ & Hk & _).
        apply Returns_ret_inv in Hk. destruct Hk as (_ & _ & Hk). discriminate.
      * cbn [app]. rewrite <- app_assoc.
        eapply cherryPickLoop_ok; [exact E | exact Hstep |].
        eapply IH; eassumption.
Qed.

(** *** [Backport] around the loop *)

Lemma Backport_run (base source : string) (commits : list string)
    (nb : Branch.t) (head : Commit.t) (g g1 g2 g3 g4 : G) (l1 l2 : list call)
    (r : result Commit.t) :
  let new := newBranchName base source in
  Returns h (createBranchFrom c base new) g g1 l1 None ->
  h _ (Repositories_GetBranch (org c) (rep c) new true) g1 = (g2, inr nb) ->
  h _ (Git_GetCommit (org c) (rep c) (RepositoryCommit.GetSHA (Branch.GetCommit nb))) g2
    = (g3, inr head) ->
  Returns h (cherryPickLoop c new commits head) g3 g4 l2 r ->
  Returns h (Backport c base source commits) g g4 (l1 ++ openCalls c new nb ++ l2)
    (match r with inl err => inl (Wrap err) | inr _ => inr new end).
Proof.
  intros new Hc Hb Hh Hl. unfold Backport. fold new.
  eapply Returns_bind; [exact Hc|]. cbn beta iota.
  assert (Returns h (cherryPickCommitsOnBranch c new commits) g1 g4
            (openCalls c new nb ++ l2)
            (match r with inl err => Some err | inr _ => None end)) as Hcp.
  { unfold cherryPickCommitsOnBranch, openCalls. cbn [app].
    call_step. call_step.
    rewrite <- (app_nil_r l2).
    eapply Returns_bind; [exact Hl|]. destruct r; apply Returns_ret. }
  rewrite <- (app_nil_r (openCalls c new nb ++ l2)).
  eapply Returns_bind; [exact Hcp|]. destruct r; apply Returns_ret.
Qed.

Lemma Backport_name (base source : string) (commits : list string)
    (g g' : G) (l : list call) (name : string) :
  Returns h (Backport c base source commits) g g' l (inr name) ->
  name = newBranchName base source.
Proof.
  unfold Backport. intros H.
  apply Returns_bind_inv in H. destruct H as (g1 & l1 & [err|] & l2 & _ & H & _).
  - apply Returns_ret_inv in H. destruct H as (_ & _ & H). discriminate.
  - apply Returns_bind_inv in H. destruct H as (g2 & l3 & [err|] & l4 & _ & H & _).
    + apply Returns_ret_inv in H. destruct H as (_ & _ & H). discriminate.
    + apply Returns_ret_inv in H. destruct H as (_ & _ & H). congruence.
Qed.

(** C9.  With no commit to pick, and the host answering its four
    calls, [Backport] reads the base branch, creates the new reference
    at the base branch's tip, reads the new branch and its head commit,
    and returns the new branch's name: the reference creation is the
    only write, and no cherry-pick step runs. *)
Theorem Backport_no_commits (base source : string) (b nb : Branch.t)
    (ref : Reference.t) (head : Commit.t) (g g1 g2 g3 g4 : G) :
  h _ (Repositories_GetBranch (org c) (rep c) base true) g = (g1, inr b) ->
  h _ (Git_CreateRef (org c) (rep c)
         (branchRef (newBranchName base source)
            (RepositoryCommit.GetSHA (Branch.GetCommit b)))) g1 = (g2, inr ref) ->
  h _ (Repositories_GetBranch (org c) (rep c) (newBranchName base source) true) g2
    = (g3, inr nb) ->
  h _ (Git_GetCommit (org c) (rep c) (RepositoryCommit.GetSHA (Branch.GetCommit nb))) g3
    = (g4, inr head) ->
  Returns h (Backport c base source []) g g4
    [ Call (Repositories_GetBranch (org c) (rep c) base true);
      Call (Git_CreateRef (org c) (rep c)
              (branchRef (newBranchName base source)
                 (RepositoryCommit.GetSHA (Branch.GetCommit b))));
      Call (Repositories_GetBranch (org c) (rep c) (newBranchName base source) true);
      Call (Git_GetCommit (org c) (rep c) (RepositoryCommit.GetSHA (Branch.GetCommit nb))) ]
    (inr (newBranchName base source)).
Proof.
  intros H1 H2 H3 H4.
  pose proof (createBranchFrom_ok _ _ _ _ _ _ _ H1 H2) as Hc.
  pose proof (Backport_run base source [] _ _ _ _ _ _ _ _ _ _ Hc H3 H4
                (Returns_ret h (inr head) g4)) as Hb.
  cbn [app openCalls] in Hb. exact Hb.
Qed.

(** C5.  The new branch is named [auto-backport/<base>/<source>], a
    function of the pair of names, and [Backport] never returns another
    name.  When the host refuses to create the reference, as it does
    for one that exists, [Backport] stops after that call: it returns
    the host's error under two [trace.Wrap], and has made no call that
    moves a reference. *)
Theorem Backport_branch_exists (base source : string) (commits : list string)
    (b : Branch.t) (err : error) (g g1 g2 : G) :
  h _ (Repositories_GetBranch (org c) (rep c) base true) g = (g1, inr b) ->
  h _ (Git_CreateRef (org c) (rep c)
         (branchRef (newBranchName base source)
            (RepositoryCommit.GetSHA (Branch.GetCommit b)))) g1 = (g2, inl err) ->
  newBranchName base source = ("auto-backport/" ++ base ++ "/" ++ source)%string /\
  (forall g0 g' l name,
     Returns h (Backport c base source commits) g0 g' l (inr name) ->
     name = newBranchName base source) /\
  Returns h (Backport c base source commits) g g2
    [ Call (Repositories_GetBranch (org c) (rep c) base true);
      Call (Git_CreateRef (org c) (rep c)
              {| Reference.Ref :=
                   Some ("refs/heads/auto-backport/" ++ base ++ "/" ++ source)%string;
                 Reference.Object :=
                   Some {| GitObject.SHA :=
                             Some (RepositoryCommit.GetSHA (Branch.GetCommit b)) |} |}) ]
    (inl (Wrap (Wrap err))) /\
  Unwrap (Wrap (Wrap err)) = Unwrap err.
Proof.
  intros H1 H2. split; [reflexivity|]. split; [apply Backport_name|].
  split; [|reflexivity].
  pose proof (createBranchFrom_exists _ _ _ _ _ _ _ H1 H2) as Hc.
  unfold Backport.
  eapply Returns_bind_eq; [exact Hc | apply Returns_ret | reflexivity].
Qed.

(** C2, as the code has it.  When the branch was created and a
    cherry-pick step fails, the engine asks the host to delete the new
    reference, as its last call, and returns the step's error under two
    [trace.Wrap] whatever the host answers to the deletion; the host is
    left in the state that answer came with. *)
Theorem Backport_step_failure (base source : string) (pre post : list string)
    (x : string) (nb : Branch.t) (head head' cherry : Commit.t) (err : error)
    (d : result unit) (g g1 g2 g3 g4 g5 g6 g7 : G) (l1 l2 l3 : list call) :
  Returns h (createBranchFrom c base (newBranchName base source)) g g1 l1 None ->
  h _ (Repositories_GetBranch (org c) (rep c) (newBranchName base source) true) g1
    = (g2, inr nb) ->
  h _ (Git_GetCommit (org c) (rep c) (RepositoryCommit.GetSHA (Branch.GetCommit nb))) g2
    = (g3, inr head) ->
  Returns h (cherryPickLoop c (newBranchName base source) pre head) g3 g4 l2 (inr head') ->
  h _ (Git_GetCommit (org c) (rep c) x) g4 = (g5, inr cherry) ->
  Returns h (cherryPickCommit c (newBranchName base source) cherry head') g5 g6 l3 (inl err) ->
  h _ (Git_DeleteRef (org c) (rep c) (refName (newBranchName base source))) g6 = (g7, d) ->
  Returns h (Backport c base source (pre ++ x :: post)) g g7
    (l1 ++ openCalls c (newBranchName base source) nb ++ l2 ++
     Call (Git_GetCommit (org c) (rep c) x) :: l3 ++
     [Call (Git_DeleteRef (org c) (rep c)
              ("refs/heads/" ++ newBranchName base source)%string)])
    (inl (Wrap (Wrap err))) /\
  Unwrap (Wrap (Wrap err)) = Unwrap err.
Proof.
  intros Hc Hb Hh Hpre Hx Hstep Hd. split; [|reflexivity].
  pose proof (cherryPickLoop_fail _ _ post _ _ _ _ _ _ _ _ _ Hx Hstep Hd) as Hfail.
  pose proof (cherryPickLoop_app _ _ _ _ _ _ _ _ _ _ _ Hpre Hfail) as Hloop.
  exact (Backport_run base source _ _ _ _ _ _ _ _ _ _ _ Hc Hb Hh Hloop).
Qed.

(** C4.  A commit that does not have exactly one parent makes the step
    fail with "merge commits are not supported" without a single call
    to the host; and a [Backport] whose loop reaches such a commit
    fails with that error, its only call after fetching the commit
    being the deletion of the new reference. *)
Theorem merge_commit_rejected (base source : string) (pre post : list string)
    (x : string) (nb : Branch.t) (head head' cherry : Commit.t) (d : result unit)
    (branchName : string) (tip : Commit.t) (g0 : G)
    (g g1 g2 g3 g4 g5 g6 : G) (l1 l2 : list call) :
  List.length (Commit.Parents cherry) <> 1%nat ->
  Returns h (createBranchFrom c base (newBranchName base source)) g g1 l1 None ->
  h _ (Repositories_GetBranch (org c) (rep c) (newBranchName base source) true) g1
    = (g2, inr nb) ->
  h _ (Git_GetCommit (org c) (rep c) (RepositoryCommit.GetSHA (Branch.GetCommit nb))) g2
    = (g3, inr head) ->
  Returns h (cherryPickLoop c (newBranchName base source) pre head) g3 g4 l2 (inr head') ->
  h _ (Git_GetCommit (org c) (rep c) x) g4 = (g5, inr cherry) ->
  h _ (Git_DeleteRef (org c) (rep c) (refName (newBranchName base source))) g5 = (g6, d) ->
  Returns h (cherryPickCommit c branchName cherry tip) g0 g0 []
    (inl (BadParameter "merge commits are not supported")) /\
  Returns h (Backport c base source (pre ++ x :: post)) g g6
    (l1 ++ openCalls c (newBranchName base source) nb ++ l2 ++
     [ Call (Git_GetCommit (org c) (rep c) x);
       Call (Git_DeleteRef (org c) (rep c) (refName (newBranchName base source))) ])
    (inl (Wrap (Wrap (BadParameter "merge commits are not supported")))).
Proof.
  intros HP Hc Hb Hh Hpre Hx Hd.
  split; [apply cherryPickCommit_guard; exact HP|].
  pose proof (cherryPickCommit_guard h c (newBranchName base source) cherry head' g5 HP)
    as Hstep.
  pose proof (cherryPickLoop_fail _ _ post _ _ _ _ _ _ _ _ _ Hx Hstep Hd) as Hfail.
  pose proof (cherryPickLoop_app _ _ _ _ _ _ _ _ _ _ _ Hpre Hfail) as Hloop.
  exact (Backport_run base source _ _ _ _ _ _ _ _ _ _ _ Hc Hb Hh Hloop).
Qed.

End Engine.

(* ================================================================== *)
(** ** Reading a pull request *)

Section Pulls.

Context {G : Type} (h : host G) (c : Client).

Lemma pageStep_run (number : Z) (st : pageState) (g g1 : G)
    (x : result (list RepositoryCommit.t * Response.t)) :
  h _ (listCall c number) g = (g1, x) ->
  Returns h (pageStep c number st) g g1 [Call (listCall c number)] (pageNext st x).
Proof.
  intros E. destruct st as [acc opts]. unfold pageStep. fold (listCall c number).
  call_step. unfold pageNext, shas. cbn [fst snd].
  destruct x as [err|[cs resp]]; [apply Returns_ret|].
  destruct (Response.NextPage resp =? 0); apply Returns_ret.
Qed.

Lemma pageStep_inv (number : Z) (st : pageState) (g g1 : G) (l : list call)
    (a : pageState + result (list string)) :
  Returns h (pageStep c number st) g g1 l a ->
  exists x, h _ (listCall c number) g = (g1, x) /\
            l = [Call (listCall c number)] /\ a = pageNext st x.
Proof.
  intros H. destruct (h _ (listCall c number) g) as [g1' x] eqn:E.
  destruct (Returns_det _ _ _ _ _ _ _ _ _ H (pageStep_run number st _ _ _ E)) as (-> & -> & ->).
  exists x. auto.
Qed.

Lemma page_loop_returns (number : Z) (g g' : G) (css : list (list RepositoryCommit.t)) :
  pages h c number g css g' ->
  forall st : pageState,
  Returns h (ITree.iter (pageStep c number) st) g g'
    (List.repeat (Call (listCall c number)) (List.length css))
    (inr (fst st ++ shas (List.concat css))).
Proof.
  induction 1 as [g g' cs resp E Hz | g g1 g' cs resp rest E Hnz Hrest IH]; intros st.
  - apply Returns_iter.
    exists g', [Call (listCall c number)], (pageNext st (inr (cs, resp))), [].
    split; [apply pageStep_run; exact E|]. split; [|reflexivity].
    cbn [pageNext]. rewrite Hz. cbn [Z.eqb List.concat]. rewrite app_nil_r. auto.
  - apply Returns_iter.
    exists g1, [Call (listCall c number)], (pageNext st (inr (cs, resp))),
      (List.repeat (Call (listCall c number)) (List.length rest)).
    split; [apply pageStep_run; exact E|]. split; [|reflexivity].
    cbn [pageNext]. destruct (Z.eqb_spec (Response.NextPage resp) 0) as [Hz|_]; [tauto|].
    specialize (IH (fst st ++ shas cs,
                    {| ListOptions.Page := Response.NextPage resp;
                       ListOptions.PerPage := ListOptions.PerPage (snd st) |})).
    cbn [fst List.concat] in IH |- *. unfold shas in IH |- *.
    rewrite List.map_app, List.app_assoc. exact IH.
Qed.

Lemma page_loop_inv (number : Z) (st : pageState) (g g' : G) (l : list call)
    (r : result (list string)) :
  Returns h (ITree.iter (pageStep c number) st) g g' l r ->
  match r with
  | inr out =>
      exists css, pages h c number g css g' /\
                  out = fst st ++ shas (List.concat css) /\
                  l = List.repeat (Call (listCall c number)) (List.length css)
  | inl _ => True
  end.
Proof.
  revert st g g' l r.
  apply (Returns_iter_ind h (pageStep c number)
           (fun st g g' l r =>
              match r with
              | inr out =>
                  exists css, pages h c number g css g' /\
                              out = fst st ++ shas (List.concat css) /\
                              l = List.repeat (Call (listCall c number)) (List.length css)
              | inl _ => True
              end)).
  - intros st g g1 l1 r Hb. destruct r as [err|out]; [exact I|].
    apply pageStep_inv in Hb. destruct Hb as (x & E & -> & Ha).
    destruct x as [err|[cs resp]]; cbn [pageNext] in Ha; [discriminate|].
    destruct (Z.eqb_spec (Response.NextPage resp) 0) as [Hz|Hnz]; [|discriminate].
    injection Ha as ->. exists [cs]. split; [eapply pages_last; eassumption|].
    cbn [List.concat]. rewrite app_nil_r. auto.
  - intros st g g1 l1 st' g' l2 r Hb _ IH. destruct r as [err|out]; [exact I|].
    destruct IH as (css & Hp & -> & ->).
    apply pageStep_inv in Hb. destruct Hb as (x & E & -> & Ha).
    destruct x as [err|[cs resp]]; cbn [pageNext] in Ha; [discriminate|].
    destruct (Z.eqb_spec (Response.NextPage resp) 0) as [Hz|Hnz]; [discriminate|].
    injection Ha as ->. exists (cs :: css). split; [eapply pages_more; eassumption|].
    cbn [fst List.concat List.length List.repeat app]. unfold shas.
    rewrite List.map_app, List.app_assoc. auto.
Qed.

(** A host that answers the loop's request with a next page, and is
    not changed by the request, keeps the loop going for ever. *)
Lemma page_loop_stuck (number : Z) (g : G) (cs : list RepositoryCommit.t)
    (resp : Response.t) :
  h _ (listCall c number) g = (g, inr (cs, resp)) ->
  Response.NextPage resp <> 0 ->
  Diverges h (getPullRequestCommits c number) g.
Proof.
  intros E Hnz. unfold getPullRequestCommits.
  apply (Diverges_iter h (pageStep c number) (fun _ g' => g' = g)); [|reflexivity].
  intros st g' ->. exists g, [Call (listCall c number)].
  pose proof (pageStep_run number st g g _ E) as Hs. cbn [pageNext] in Hs.
  destruct (Z.eqb_spec (Response.NextPage resp) 0) as [Hz|_]; [contradiction|].
  eexists. split; [exact Hs | reflexivity].
Qed.

(** A listing that fits one page is returned as it is. *)
Lemma getPullRequestCommits_single_page (number : Z) (g g' : G)
    (cs : list RepositoryCommit.t) (resp : Response.t) :
  h _ (listCall c number) g = (g', inr (cs, resp)) ->
  Response.NextPage resp = 0 ->
  Returns h (getPullRequestCommits c number) g g' [Call (listCall c number)]
    (inr (shas cs)).
Proof.
  intros E Hz.
  pose proof (page_loop_returns number g g' [cs] (pages_last h c number g g' cs resp E Hz)
                ([], {| ListOptions.Page := 0; ListOptions.PerPage := perPage |})) as H.
  cbn [List.concat List.length List.repeat fst app] in H. rewrite app_nil_r in H. exact H.
Qed.

(** C8, as the code has it.  The page loop returns a list exactly when
    the host's answers to its requests are, after finitely many
    successful answers that announce a next page, a successful answer
    whose next-page indicator is zero; it has then made one request per
    answer and returns the shas of those answers in order.  Nothing in
    the loop bounds the number of requests. *)
Theorem getPullRequestCommits_returns (number : Z) (g g' : G) (l : list call)
    (out : list string) :
  Returns h (getPullRequestCommits c number) g g' l (inr out) <->
  exists css : list (list RepositoryCommit.t),
    pages h c number g css g' /\
    out = shas (List.concat css) /\
    l = List.repeat (Call (listCall c number)) (List.length css).
Proof.
  unfold getPullRequestCommits. split.
  - intros H. apply page_loop_inv in H. exact H.
  - intros (css & Hp & -> & ->).
    exact (page_loop_returns _ _ _ _ Hp ([], {| ListOptions.Page := 0; ListOptions.PerPage := perPage |})).
Qed.

End Pulls.

(* ================================================================== *)
(** ** Runs on the in-memory host *)

Ltac runs n := exists n; vm_compute; reflexivity.

(** The scenario of the backport of two commits: the new branch ends
    at a commit with the message of [C2], on top of a commit with the
    message of [C1], on top of [R]. *)
Example Backport_end_to_end :
  exists g l,
    Returns MemHost.serve (Backport Example.clt "release/1.0" "feature-x" ["C1"; "C2"])
      Example.repo g l (inr "auto-backport/release/1.0/feature-x") /\
    List.length l = 20%nat /\
    MemHost.lookup "refs/heads/auto-backport/release/1.0/feature-x" (MemHost.refs g)
      = Some "sha5" /\
    option_map (fun k => (Commit.Message k, List.map Commit.GetSHA (Commit.Parents k)))
      (MemHost.findCommit "sha5" g) = Some (Some "change X", ["sha2"]) /\
    option_map (fun k => (Commit.Message k, List.map Commit.GetSHA (Commit.Parents k)))
      (MemHost.findCommit "sha2" g) = Some (Some "add X", ["R"]) /\
    option_map MemHost.treeSHA (MemHost.findCommit "sha5" g)
      = Some "merge(merge(tR,tC1),tC2)".
Proof.
  do 2 eexists. split; [runs 60%nat|]. repeat split.
Qed.

(** The metadata of the pull requests of the repository. *)
Example GetPullRequestMetadata_closed_on_master :
  Returns MemHost.serve (GetPullRequestMetadata Example.clt 7) Example.repo Example.repo
    [ Call (getCall Example.clt 7); Call (listCall Example.clt 7) ]
    (inr (["C1"; "C2"], "feature-x")).
Proof. runs 10%nat. Qed.

Example GetPullRequestMetadata_open :
  Returns MemHost.serve (GetPullRequestMetadata Example.clt 8) Example.repo Example.repo
    [ Call (getCall Example.clt 8) ]
    (inl (Errorf "pull request 8 is not closed")).
Proof. runs 10%nat. Qed.

Example GetPullRequestMetadata_off_master :
  Returns MemHost.serve (GetPullRequestMetadata Example.clt 9) Example.repo Example.repo
    [ Call (getCall Example.clt 9) ]
    (inl (Errorf "pull request 9's base is not master")).
Proof. runs 10%nat. Qed.

Example GetPullRequestMetadata_unknown :
  Returns MemHost.serve (GetPullRequestMetadata Example.clt 10) Example.repo Example.repo
    [ Call (getCall Example.clt 10) ]
    (inl (Wrap (HostError "Not Found"))).
Proof. runs 10%nat. Qed.

Example New_examples :
  New (mkConfig "token" "gravitational" "teleport") = inr Example.clt /\
  New (mkConfig "" "gravitational" "teleport") = inl (Wrap (BadParameter "missing token")) /\
  New (mkConfig "token" "" "") = inl (Wrap (BadParameter "missing organization")) /\
  New (mkConfig "token" "gravitational" "") = inl (Wrap (BadParameter "missing repository")).
Proof. repeat split. Qed.

(** A commit that cannot be fetched: [Backport] fails and the branch
    it created stays. *)
Example Backport_missing_commit :
  Returns MemHost.serve (Backport Example.clt "release/1.0" "feature-x" ["nowhere"])
    Example.repo Scenario.started
    [ Call (Repositories_GetBranch "gravitational" "teleport" "release/1.0" true);
      Call (Git_CreateRef "gravitational" "teleport"
              (branchRef "auto-backport/release/1.0/feature-x" "R"));
      Call (Repositories_GetBranch "gravitational" "teleport"
              "auto-backport/release/1.0/feature-x" true);
      Call (Git_GetCommit "gravitational" "teleport" "R");
      Call (Git_GetCommit "gravitational" "teleport" "nowhere") ]
    (inl (Wrap (Wrap (HostError "Not Found")))).
Proof. runs 20%nat. Qed.

(** On the in-memory host, [Backport] for a pair of names whose branch
    exists returns the host's refusal and leaves the host as it was. *)
Lemma Backport_second_invocation (s : MemHost.t) (c : Client) (base source : string)
    (commits : list string) (sha sha' : string) :
  MemHost.lookup (refName base) (MemHost.refs s) = Some sha ->
  MemHost.lookup (refName (newBranchName base source)) (MemHost.refs s) = Some sha' ->
  Returns MemHost.serve (Backport c base source commits) s s
    [ Call (Repositories_GetBranch (org c) (rep c) base true);
      Call (Git_CreateRef (org c) (rep c) (branchRef (newBranchName base source) sha)) ]
    (inl (Wrap (Wrap (HostError "Reference already exists")))).
Proof.
  intros Hb Hn.
  assert (Returns MemHost.serve (createBranchFrom c base (newBranchName base source)) s s
            [ Call (Repositories_GetBranch (org c) (rep c) base true);
              Call (Git_CreateRef (org c) (rep c) (branchRef (newBranchName base source) sha)) ]
            (Some (Wrap (HostError "Reference already exists")))) as Hc.
  { apply (createBranchFrom_exists MemHost.serve c base (newBranchName base source)
             (Branch.mk (Some (RepositoryCommit.mk (Some sha)))) _ s s s).
    - cbn [MemHost.serve]. rewrite Hb. reflexivity.
    - unfold branchRef. cbn [MemHost.serve Reference.Ref GetString]. rewrite Hn. reflexivity. }
  unfold Backport.
  eapply Returns_bind_eq; [exact Hc | apply Returns_ret | reflexivity].
Qed.

Lemma cherryPickCommit_protocol_witness :
  exists g7 sib m mc upd fin,
    Returns MemHost.serve
      (cherryPickCommit Example.clt Scenario.newBranch Example.C1 Example.R)
      Scenario.started g7
      (stepCalls Example.clt Scenario.newBranch Example.C1 Example.R
         (Example.stub "A") sib m mc upd fin)
      (inr (Commit.GetTree mc, Commit.GetSHA fin)).
Proof.
  do 6 eexists.
  refine (proj1 (cherryPickCommit_protocol MemHost.serve Example.clt Scenario.newBranch
                   Example.C1 Example.R (Example.stub "A") _ _ _ _ _ _ _
                   Scenario.started _ _ _ _ _ _ _ _ _ _ _ _ _ _ _));
    vm_compute; reflexivity.
Defined.

Lemma Backport_no_commits_witness :
  exists g4 b nb,
    Returns MemHost.serve (Backport Example.clt "release/1.0" "feature-x" [])
      Example.repo g4
      [ Call (Repositories_GetBranch "gravitational" "teleport" "release/1.0" true);
        Call (Git_CreateRef "gravitational" "teleport"
                (branchRef Scenario.newBranch (RepositoryCommit.GetSHA (Branch.GetCommit b))));
        Call (Repositories_GetBranch "gravitational" "teleport" Scenario.newBranch true);
        Call (Git_GetCommit "gravitational" "teleport"
                (RepositoryCommit.GetSHA (Branch.GetCommit nb))) ]
      (inr Scenario.newBranch) /\
    g4 = Scenario.started /\
    RepositoryCommit.GetSHA (Branch.GetCommit b) = "R".
Proof.
  do 3 eexists. split; [|split].
  - refine (Backport_no_commits MemHost.serve Example.clt "release/1.0" "feature-x"
              _ _ _ _ Example.repo _ _ _ _ _ _ _ _); vm_compute; reflexivity.
  - reflexivity.
  - reflexivity.
Defined.

(** The second invocation for the same pair of names, while the branch
    of the first exists: the host is left as it was. *)
Lemma Backport_branch_exists_witness :
  Returns MemHost.serve (Backport Example.clt "release/1.0" "feature-x" ["C1"; "C2"])
    Scenario.started Scenario.started
    [ Call (Repositories_GetBranch "gravitational" "teleport" "release/1.0" true);
      Call (Git_CreateRef "gravitational" "teleport"
              {| Reference.Ref := Some "refs/heads/auto-backport/release/1.0/feature-x";
                 Reference.Object := Some {| GitObject.SHA := Some "R" |} |}) ]
    (inl (Wrap (Wrap (HostError "Reference already exists")))).
Proof.
  refine (proj1 (proj2 (proj2
           (Backport_branch_exists MemHost.serve Example.clt "release/1.0" "feature-x"
              ["C1"; "C2"]
              (Branch.mk (Some (RepositoryCommit.mk (Some "R"))))
              (HostError "Reference already exists")
              Scenario.started Scenario.started Scenario.started _ _))));
    vm_compute; reflexivity.
Defined.

(** [C1] is picked, the merge commit [M] is refused, and the host
    deletes the branch: the references are those of the start. *)
Lemma Backport_step_failure_witness :
  exists g7 l,
    Returns MemHost.serve (Backport Example.clt "release/1.0" "feature-x" (["C1"] ++ "M" :: []))
      Example.repo g7 l
      (inl (Wrap (Wrap (BadParameter "merge commits are not supported")))) /\
    MemHost.refs g7 = MemHost.refs Example.repo /\
    List.last l (Call (Git_GetCommit "" "" "")) =
      Call (Git_DeleteRef "gravitational" "teleport"
              "refs/heads/auto-backport/release/1.0/feature-x").
Proof.
  do 2 eexists. split; [|split].
  - refine (proj1 (Backport_step_failure MemHost.serve Example.clt "release/1.0" "feature-x"
              ["C1"] [] "M" _ _ _ _ _ _ Example.repo _ _ _ _ _ _ _ _ _ _
              _ _ _ _ _ _ _)).
    + runs 10%nat.
    + vm_compute; reflexivity.
    + vm_compute; reflexivity.
    + runs 40%nat.
    + vm_compute; reflexivity.
    + runs 5%nat.
    + vm_compute; reflexivity.
  - reflexivity.
  - reflexivity.
Defined.

Lemma merge_commit_rejected_witness :
  exists g6 l,
    Returns MemHost.serve
      (cherryPickCommit Example.clt Scenario.newBranch Example.M Example.R)
      Scenario.started Scenario.started []
      (inl (BadParameter "merge commits are not supported")) /\
    Returns MemHost.serve (Backport Example.clt "release/1.0" "feature-x" ([] ++ "M" :: ["C2"]))
      Example.repo g6 l
      (inl (Wrap (Wrap (BadParameter "merge commits are not supported")))) /\
    g6 = Example.repo.
Proof.
  do 2 eexists.
  assert (forall A B C : Prop, A /\ B -> C -> A /\ B /\ C) as conj3 by tauto.
  apply conj3; [|reflexivity].
  refine (merge_commit_rejected MemHost.serve Example.clt "release/1.0" "feature-x"
            [] ["C2"] "M" _ _ _ Example.M _ Scenario.newBranch Example.R Scenario.started
            Example.repo _ _ _ _ _ _ _ _ _ _ _ _ _ _ _).
  - vm_compute. discriminate.
  - runs 10%nat.
  - vm_compute; reflexivity.
  - vm_compute; reflexivity.
  - runs 5%nat.
  - vm_compute; reflexivity.
  - vm_compute; reflexivity.
Defined.

(** C2 as stated fails.  On a host that refuses to delete the new
    reference, the branch is created, the step on the merge commit [M]
    fails, [Backport] returns the step's error after asking for the
    deletion, and the branch is still there: the host answers a later
    [GetBranch] for it. *)
Lemma Backport_rollback_counterexample :
  Returns MemHost.serve
    (createBranchFrom Example.clt "release/1.0" (newBranchName "release/1.0" "feature-x"))
    Scenario.locked Scenario.stuck
    [ Call (Repositories_GetBranch "gravitational" "teleport" "release/1.0" true);
      Call (Git_CreateRef "gravitational" "teleport"
              (branchRef "auto-backport/release/1.0/feature-x" "R")) ]
    None /\
  Returns MemHost.serve
    (cherryPickCommit Example.clt (newBranchName "release/1.0" "feature-x")
       Example.M Example.R)
    Scenario.stuck Scenario.stuck []
    (inl (BadParameter "merge commits are not supported")) /\
  Returns MemHost.serve (Backport Example.clt "release/1.0" "feature-x" ["M"])
    Scenario.locked Scenario.stuck
    [ Call (Repositories_GetBranch "gravitational" "teleport" "release/1.0" true);
      Call (Git_CreateRef "gravitational" "teleport"
              (branchRef "auto-backport/release/1.0/feature-x" "R"));
      Call (Repositories_GetBranch "gravitational" "teleport"
              "auto-backport/release/1.0/feature-x" true);
      Call (Git_GetCommit "gravitational" "teleport" "R");
      Call (Git_GetCommit "gravitational" "teleport" "M");
      Call (Git_DeleteRef "gravitational" "teleport"
              "refs/heads/auto-backport/release/1.0/feature-x") ]
    (inl (Wrap (Wrap (BadParameter "merge commits are not supported")))) /\
  MemHost.serve _ (Git_DeleteRef "gravitational" "teleport"
                     "refs/heads/auto-backport/release/1.0/feature-x") Scenario.stuck
    = (Scenario.stuck, inl (HostError "Cannot delete a protected branch")) /\
  MemHost.serve _ (Repositories_GetBranch "gravitational" "teleport"
                     (newBranchName "release/1.0" "feature-x") true) Scenario.stuck
    = (Scenario.stuck, inr (Branch.mk (Some (RepositoryCommit.mk (Some "R"))))).
Proof.
  split; [runs 10%nat|]. split; [runs 5%nat|]. split; [runs 20%nat|].
  split; reflexivity.
Qed.

(** C8 as stated fails.  Every listing of this host succeeds, and the
    page loop never returns. *)
Lemma getPullRequestCommits_termination_counterexample :
  (forall (owner repo : string) (number : Z) (opts : ListOptions.t) (u : unit),
     exists v, Scenario.stubborn _ (PullRequests_ListCommits owner repo number opts) u
               = (u, inr v)) /\
  Diverges Scenario.stubborn (getPullRequestCommits Example.clt 7) tt.
Proof.
  split; [intros; eexists; reflexivity|].
  apply (page_loop_stuck Scenario.stubborn Example.clt 7 tt [] (Response.mk 1));
    [reflexivity | discriminate].
Qed.

(** C3 at a pull request of two pages.  The host lists one commit per
    page: page 1 is [C1] and announces page 2, page 2 is [C2] and is the
    last.  Every round of the loop asks for the default page, is given
    page 1, and goes round again: [getPullRequestCommits] never
    returns. *)
Theorem getPullRequestCommits_two_pages :
  MemHost.serve _ (PullRequests_ListCommits "gravitational" "teleport" 7
                     (ListOptions.mk 1 0)) Scenario.paged
    = (Scenario.paged, inr ([RepositoryCommit.mk (Some "C1")], Response.mk 2)) /\
  MemHost.serve _ (PullRequests_ListCommits "gravitational" "teleport" 7
                     (ListOptions.mk 2 0)) Scenario.paged
    = (Scenario.paged, inr ([RepositoryCommit.mk (Some "C2")], Response.mk 0)) /\
  MemHost.serve _ (listCall Example.clt 7) Scenario.paged
    = (Scenario.paged, inr ([RepositoryCommit.mk (Some "C1")], Response.mk 2)) /\
  Diverges MemHost.serve (getPullRequestCommits Example.clt 7) Scenario.paged.
Proof.
  split; [reflexivity|]. split; [reflexivity|]. split; [reflexivity|].
  apply (page_loop_stuck MemHost.serve Example.clt 7 Scenario.paged
           [RepositoryCommit.mk (Some "C1")] (Response.mk 2));
    [reflexivity | discriminate].
Qed.

(* ================================================================== *)
(** ** Rules for the properties of all runs *)

Section Rules.

Context {G : Type} (h : host G).

Lemma Ensures_ret {R} (r : R) (g : G) (Q : G -> list call -> R -> Prop) :
  Q g [] r -> Ensures h (Ret r) g Q.
Proof.
  intros HQ g' l r' H. apply Returns_ret_inv in H. destruct H as (-> & -> & ->). exact HQ.
Qed.

Lemma Ensures_call {X R} (e : gitE X) (k : X -> itree gitE R) (g : G)
    (Q : G -> list call -> R -> Prop) :
  (forall g1 x, h _ e g = (g1, x) ->
     Ensures h (k x) g1 (fun g' l r => Q g' (Call e :: l) r)) ->
  Ensures h (ITree.bind (ITree.trigger e) k) g Q.
Proof.
  intros Hk g' l r H. apply Returns_call_inv in H.
  destruct H as (g1 & x & l' & E & H & ->). exact (Hk g1 x E g' l' r H).
Qed.

Lemma Ensures_bind {A R} (t : itree gitE A) (k : A -> itree gitE R) (g : G)
    (QA : G -> list call -> A -> Prop) (Q : G -> list call -> R -> Prop) :
  Ensures h t g QA ->
  (forall g1 l1 a, QA g1 l1 a ->
     Ensures h (k a) g1 (fun g' l2 r => Q g' (l1 ++ l2) r)) ->
  Ensures h (ITree.bind t k) g Q.
Proof.
  intros Ht Hk g' l r H. apply Returns_bind_inv in H.
  destruct H as (g1 & l1 & a & l2 & H1 & H2 & ->).
  exact (Hk g1 l1 a (Ht g1 l1 a H1) g' l2 r H2).
Qed.

Lemma Ensures_weaken {R} (t : itree gitE R) (g : G) (Q Q' : G -> list call -> R -> Prop) :
  Ensures h t g Q -> (forall g' l r, Q g' l r -> Q' g' l r) -> Ensures h t g Q'.
Proof. intros H HQ g' l r Hr. apply HQ, H, Hr. Qed.

(** A loop: what holds of the log of a round that goes on is [P1];
    [Q] is kept when such a round is put in front. *)
Lemma Ensures_iter {I R} (body : I -> itree gitE (I + R)) (P1 : list call -> Prop)
    (Q : G -> list call -> R -> Prop) :
  (forall i g, Ensures h (body i) g
     (fun g1 l1 a => match a with inl _ => P1 l1 | inr r => Q g1 l1 r end)) ->
  (forall l1 g' l2 r, P1 l1 -> Q g' l2 r -> Q g' (l1 ++ l2) r) ->
  forall i g, Ensures h (ITree.iter body i) g Q.
Proof.
  intros Hbody Hglue i g g' l r H. revert i g g' l r H.
  apply (Returns_iter_ind h body (fun _ _ g' l r => Q g' l r)).
  - intros i g g1 l1 r Hb. exact (Hbody i g g1 l1 (inr r) Hb).
  - intros i g g1 l1 i' g' l2 r Hb _ IH.
    apply Hglue; [exact (Hbody i g g1 l1 (inl i') Hb) | exact IH].
Qed.

Lemma failedLast_app (g' : G) (l1 l2 : list call) (e : error) :
  failedLast h g' l2 e -> failedLast h g' (l1 ++ l2) e.
Proof.
  intros (l0 & X & ev & g0 & e0 & -> & E & Hu).
  exists (l1 ++ l0), X, ev, g0, e0. rewrite app_assoc. auto.
Qed.

Lemma failedLast_Wrap (g' : G) (l : list call) (e : error) :
  failedLast h g' l e -> failedLast h g' l (Wrap e).
Proof.
  intros (l0 & X & ev & g0 & e0 & -> & E & Hu).
  exists l0, X, ev, g0, e0. auto.
Qed.

Lemma failedLast_call {X} (ev : gitE (result X)) (g g' : G) (e0 : error) :
  h _ ev g = (g', inl e0) -> failedLast h g' [Call ev] e0.
Proof. intros E. exists [], X, ev, g, e0. auto. Qed.

End Rules.

Lemma AtMost_ret {R} (r : R) : AtMost 0 (Ret r).
Proof. intros G h g. apply Ensures_ret. apply Nat.le_refl. Qed.

Lemma AtMost_mono {R} (N M : nat) (t : itree gitE R) :
  AtMost N t -> (N <= M)%nat -> AtMost M t.
Proof.
  intros H Hle G h g. eapply Ensures_weaken; [apply (H G h g)|].
  intros g' l r Hl. cbn beta in Hl |- *. lia.
Qed.

Lemma AtMost_call {X R} (e : gitE X) (k : X -> itree gitE R) (N : nat) :
  (forall x, AtMost N (k x)) -> AtMost (S N) (ITree.bind (ITree.trigger e) k).
Proof.
  intros Hk G h g. apply Ensures_call. intros g1 x _.
  eapply Ensures_weaken; [apply (Hk x G h g1)|].
  intros g' l r Hl. cbn beta in Hl |- *. cbn [List.length]. lia.
Qed.

Lemma AtMost_bind {A R} (t : itree gitE A) (k : A -> itree gitE R) (N M : nat) :
  AtMost N t -> (forall a, AtMost M (k a)) -> AtMost (N + M) (ITree.bind t k).
Proof.
  intros Ht Hk G h g. eapply Ensures_bind; [apply (Ht G h g)|].
  intros g1 l1 a Hl1. eapply Ensures_weaken; [apply (Hk a G h g1)|].
  intros g' l2 r Hl2. cbn beta in Hl1, Hl2 |- *. rewrite List.length_app. lia.
Qed.

(* ================================================================== *)
(** ** Bounds on the calls of the engine *)

Ltac atmost_ret := eapply AtMost_mono; [apply AtMost_ret | lia].

Lemma createBranchFrom_atmost (c : Client) (branchFromName newBranch : string) :
  AtMost 2 (createBranchFrom c branchFromName newBranch).
Proof.
  unfold createBranchFrom. apply AtMost_call. intros [err|b]; [atmost_ret|].
  apply AtMost_call. intros [err|ref]; atmost_ret.
Qed.

Lemma createSiblingCommit_atmost (c : Client) (branchName : string) (tip parent : Commit.t) :
  AtMost 2 (createSiblingCommit c branchName tip parent).
Proof.
  unfold createSiblingCommit. apply AtMost_call. intros [err|sib]; [atmost_ret|].
  apply AtMost_call. intros [err|ref]; atmost_ret.
Qed.

Lemma merge_atmost (c : Client) (base headSHA : string) :
  AtMost 2 (merge c base headSHA).
Proof.
  unfold merge. apply AtMost_call. intros [err|m]; [atmost_ret|].
  apply AtMost_call. intros [err|mc]; atmost_ret.
Qed.

Lemma cherryPickCommit_atmost (c : Client) (branchName : string) (cherry tip : Commit.t) :
  AtMost 7 (cherryPickCommit c branchName cherry tip).
Proof.
  unfold cherryPickCommit.
  destruct (Commit.Parents cherry) as [|parent [|q ps]]; try atmost_ret.
  change 7%nat with (2 + 5)%nat.
  apply AtMost_bind; [apply createSiblingCommit_atmost|]. intros [err|]; [atmost_ret|].
  change 5%nat with (2 + 3)%nat.
  apply AtMost_bind; [apply merge_atmost|]. intros [err|mc]; [atmost_ret|].
  apply AtMost_call. intros [err|upd]; [atmost_ret|].
  apply AtMost_call. intros [err|fin]; [atmost_ret|].
  apply AtMost_call. intros [err|ref]; atmost_ret.
Qed.

Lemma cherryPickLoop_atmost (c : Client) (branchName : string) (commits : list string) :
  forall head, AtMost (8 * List.length commits + 1) (cherryPickLoop c branchName commits head).
Proof.
  induction commits as [|x rest IH]; intros head; cbn [cherryPickLoop].
  - atmost_ret.
  - replace (8 * List.length (x :: rest) + 1)%nat
      with (S (7 + (8 * List.length rest + 1)))%nat by (cbn [List.length]; lia).
    apply AtMost_call. intros [err|cherry]; [atmost_ret|].
    apply AtMost_bind; [apply cherryPickCommit_atmost|].
    intros [err|[tree sha]]; [|apply IH].
    eapply AtMost_mono; [apply AtMost_call; intros d; apply AtMost_ret | lia].
Qed.

Lemma cherryPickCommitsOnBranch_atmost (c : Client) (branchName : string)
    (commits : list string) :
  AtMost (8 * List.length commits + 3) (cherryPickCommitsOnBranch c branchName commits).
Proof.
  unfold cherryPickCommitsOnBranch.
  replace (8 * List.length commits + 3)%nat
    with (S (S ((8 * List.length commits + 1) + 0)))%nat by lia.
  apply AtMost_call. intros [err|b]; [atmost_ret|].
  apply AtMost_call. intros [err|head]; [atmost_ret|].
  apply AtMost_bind; [apply cherryPickLoop_atmost|]. intros [err|hd]; apply AtMost_ret.
Qed.

(** No run of [Backport], against any host and whatever its outcome,
    makes more than [8 * len(commits) + 5] calls: two to create the
    branch, two to read it, eight per commit, and the deletion. *)
Theorem Backport_call_bound (c : Client) (base source : string) (commits : list string)
    (G : Type) (h : host G) (g g' : G) (l : list call) (r : result string) :
  Returns h (Backport c base source commits) g g' l r ->
  (List.length l <= 8 * List.length commits + 5)%nat.
Proof.
  intros H.
  assert (AtMost (8 * List.length commits + 5) (Backport c base source commits)) as HA.
  { unfold Backport.
    replace (8 * List.length commits + 5)%nat
      with (2 + ((8 * List.length commits + 3) + 0))%nat by lia.
    apply AtMost_bind; [apply createBranchFrom_atmost|]. intros [err|]; [atmost_ret|].
    apply AtMost_bind; [apply cherryPickCommitsOnBranch_atmost|].
    intros [err|]; apply AtMost_ret. }
  exact (HA G h g g' l r H).
Qed.

(** A run that fails at its second commit, a merge commit. *)
Lemma Backport_call_bound_witness :
  exists g' l err,
    Returns MemHost.serve (Backport Example.clt "release/1.0" "feature-x" ["C1"; "M"])
      Example.repo g' l (inl err) /\
    (List.length l <= 21)%nat.
Proof.
  assert (exists g' l err,
            Returns MemHost.serve (Backport Example.clt "release/1.0" "feature-x" ["C1"; "M"])
              Example.repo g' l (inl err))
    as (g' & l & err & H) by (do 3 eexists; exists 60%nat; vm_compute; reflexivity).
  exists g', l, err. split; [exact H|].
  exact (Backport_call_bound Example.clt "release/1.0" "feature-x" ["C1"; "M"]
           MemHost.t MemHost.serve Example.repo g' l _ H).
Defined.

(* ================================================================== *)
(** ** What the engine writes *)

Lemma Always_ret {R} (P : call -> Prop) (r : R) : Always P (Ret r).
Proof. intros G h g. apply Ensures_ret. constructor. Qed.

Lemma Always_call {X R} (P : call -> Prop) (e : gitE X) (k : X -> itree gitE R) :
  P (Call e) -> (forall x, Always P (k x)) -> Always P (ITree.bind (ITree.trigger e) k).
Proof.
  intros He Hk G h g. apply Ensures_call. intros g1 x _.
  eapply Ensures_weaken; [apply (Hk x G h g1)|].
  intros g' l r Hl. constructor; assumption.
Qed.

Lemma Always_bind {A R} (P : call -> Prop) (t : itree gitE A) (k : A -> itree gitE R) :
  Always P t -> (forall a, Always P (k a)) -> Always P (ITree.bind t k).
Proof.
  intros Ht Hk G h g. eapply Ensures_bind; [apply (Ht G h g)|].
  intros g1 l1 a Hl1. eapply Ensures_weaken; [apply (Hk a G h g1)|].
  intros g' l2 r Hl2. apply List.Forall_app. auto.
Qed.

Lemma Always_iter {I R} (P : call -> Prop) (body : I -> itree gitE (I + R)) :
  (forall i, Always P (body i)) -> forall i, Always P (ITree.iter body i).
Proof.
  intros Hb i G h g.
  apply (Ensures_iter h body (List.Forall P) (fun _ l _ => List.Forall P l)).
  - intros i' g1. eapply Ensures_weaken; [apply (Hb i' G h g1)|].
    intros g' l [i''|r] Hl; exact Hl.
  - intros l1 g' l2 r H1 H2. apply List.Forall_app. auto.
Qed.

Ltac always_call :=
  apply Always_call; [split; [cbn; first [exact I | reflexivity] | reflexivity] | intros [?|?]].

Lemma createBranchFrom_calls (c : Client) (base newBranch : string) :
  Always (engineCall c newBranch) (createBranchFrom c base newBranch).
Proof.
  unfold createBranchFrom. always_call; [apply Always_ret|].
  always_call; apply Always_ret.
Qed.

Lemma createSiblingCommit_calls (c : Client) (branch : string) (tip parent : Commit.t) :
  Always (engineCall c branch) (createSiblingCommit c branch tip parent).
Proof.
  unfold createSiblingCommit. always_call; [apply Always_ret|].
  always_call; apply Always_ret.
Qed.

Lemma merge_calls (c : Client) (branch headSHA : string) :
  Always (engineCall c branch) (merge c branch headSHA).
Proof.
  unfold merge. always_call; [apply Always_ret|].
  always_call; apply Always_ret.
Qed.

Lemma cherryPickCommit_calls (c : Client) (branch : string) (cherry tip : Commit.t) :
  Always (engineCall c branch) (cherryPickCommit c branch cherry tip).
Proof.
  unfold cherryPickCommit.
  destruct (Commit.Parents cherry) as [|parent [|q ps]]; try apply Always_ret.
  apply Always_bind; [apply createSiblingCommit_calls|]. intros [err|]; [apply Always_ret|].
  apply Always_bind; [apply merge_calls|]. intros [err|mc]; [apply Always_ret|].
  always_call; [apply Always_ret|].
  always_call; [apply Always_ret|].
  always_call; apply Always_ret.
Qed.

Lemma cherryPickLoop_calls (c : Client) (branch : string) (commits : list string) :
  forall head, Always (engineCall c branch) (cherryPickLoop c branch commits head).
Proof.
  induction commits as [|x rest IH]; intros head; cbn [cherryPickLoop].
  - apply Always_ret.
  - always_call; [apply Always_ret|].
    apply Always_bind; [apply cherryPickCommit_calls|].
    intros [err|[tree sha]]; [|apply IH].
    apply Always_call; [split; reflexivity | intros d; apply Always_ret].
Qed.

Lemma Backport_calls (c : Client) (base source : string) (commits : list string) :
  Always (engineCall c (newBranchName base source)) (Backport c base source commits).
Proof.
  unfold Backport.
  apply Always_bind; [apply createBranchFrom_calls|]. intros [err|]; [apply Always_ret|].
  apply Always_bind; [|intros [err|]; apply Always_ret].
  unfold cherryPickCommitsOnBranch.
  always_call; [apply Always_ret|].
  always_call; [apply Always_ret|].
  apply Always_bind; [apply cherryPickLoop_calls|]. intros [err|hd]; apply Always_ret.
Qed.

(** In every run of [Backport], against every host and whatever the
    outcome, each call is addressed to the client's repository, and
    each call that writes a reference or merges names the new branch:
    no other branch is created, moved, merged into or deleted, and no
    pull request is opened. *)
Theorem Backport_writes_new_branch_only (c : Client) (base source : string)
    (commits : list string) (G : Type) (h : host G) (g g' : G) (l : list call)
    (r : result string) :
  Returns h (Backport c base source commits) g g' l r ->
  List.Forall (fun k => onBranch (newBranchName base source) k /\
                        addressee k = (org c, rep c)) l.
Proof.
  intros H.
  assert (Always (engineCall c (newBranchName base source))
            (Backport c base source commits)) as HA.
  { unfold Backport, cherryPickCommitsOnBranch.
    apply Always_bind; [apply createBranchFrom_calls|]. intros [err|]; [apply Always_ret|].
    apply Always_bind; [|intros [err|]; apply Always_ret].
    always_call; [apply Always_ret|].
    always_call; [apply Always_ret|].
    apply Always_bind; [apply cherryPickLoop_calls|]. intros [err|hd]; apply Always_ret. }
  exact (HA G h g g' l r H).
Qed.

(* ================================================================== *)
(** ** The shape of the runs of the engine *)

Section Shape.

Context {G : Type} (h : host G) (c : Client).

Lemma failedLast_cons (g' : G) (k : call) (l : list call) (e : error) :
  failedLast h g' l e -> failedLast h g' (k :: l) e.
Proof. apply (failedLast_app h g' [k] l e). Qed.

Ltac failed :=
  repeat apply failedLast_Wrap;
  first [ eapply failedLast_call; eassumption
        | assumption
        | apply failedLast_cons; failed
        | apply failedLast_app; failed ].

Lemma tally_app (l1 l2 : list call) (a1 b1 d1 a2 b2 d2 : nat) :
  tally l1 = (a1, b1, d1) -> tally l2 = (a2, b2, d2) ->
  tally (l1 ++ l2) = ((a1 + a2)%nat, (b1 + b2)%nat, (d1 + d2)%nat).
Proof.
  unfold tally. intros H1 H2. injection H1 as <- <- <-. injection H2 as <- <- <-.
  rewrite !List.filter_app, !List.length_app. reflexivity.
Qed.

Lemma tally_no_delete (l : list call) (a b : nat) :
  tally l = (a, b, 0%nat) -> List.filter isDeleteRef l = [].
Proof.
  unfold tally. intros H. injection H as _ _ H. apply List.length_zero_iff_nil. exact H.
Qed.

Lemma createSiblingCommit_shape (branch : string) (tip parent : Commit.t) (g : G) :
  Ensures h (createSiblingCommit c branch tip parent) g
    (fun g' l a =>
       match a with
       | None => tally l = (2, 1, 0)%nat
       | Some e => failedLast h g' l e /\ List.filter isDeleteRef l = []
       end).
Proof.
  unfold createSiblingCommit.
  apply Ensures_call. intros g1 [err|sib] E1.
  - apply Ensures_ret. split; [failed | reflexivity].
  - apply Ensures_call. intros g2 [err|ref] E2; apply Ensures_ret.
    + split; [failed | reflexivity].
    + reflexivity.
Qed.

Lemma merge_shape (branch headSHA : string) (g : G) :
  Ensures h (merge c branch headSHA) g
    (fun g' l r =>
       match r with
       | inr _ => tally l = (2, 0, 0)%nat
       | inl e => failedLast h g' l e /\ List.filter isDeleteRef l = []
       end).
Proof.
  unfold merge.
  apply Ensures_call. intros g1 [err|m] E1.
  - apply Ensures_ret. split; [failed | reflexivity].
  - apply Ensures_call. intros g2 [err|mc] E2; apply Ensures_ret.
    + split; [failed | reflexivity].
    + reflexivity.
Qed.

Lemma cherryPickCommit_shape (branch : string) (cherry tip : Commit.t) (g : G) :
  Ensures h (cherryPickCommit c branch cherry tip) g
    (fun g' l r =>
       match r with
       | inr _ => tally l = (7, 2, 0)%nat
       | inl e =>
           (l = [] /\ g' = g /\ e = BadParameter "merge commits are not supported" \/
            failedLast h g' l e) /\
           List.filter isDeleteRef l = []
       end).
Proof.
  unfold cherryPickCommit.
  destruct (Commit.Parents cherry) as [|parent [|q ps]];
    try (apply Ensures_ret; split; [left; auto | reflexivity]).
  eapply Ensures_bind; [apply createSiblingCommit_shape|].
  intros g1 l1 [err|] H1.
  { destruct H1 as [Hf Hd]. apply Ensures_ret. rewrite app_nil_r.
    split; [right; failed | exact Hd]. }
  eapply Ensures_bind; [apply merge_shape|].
  intros g2 l2 [err|mc] H2.
  { destruct H2 as [Hf Hd]. apply Ensures_ret. rewrite app_nil_r.
    split; [right; failed|].
    rewrite List.filter_app, Hd, (tally_no_delete _ _ _ H1). reflexivity. }
  assert (forall l3 a b, tally l3 = (a, b, 0%nat) ->
            List.filter isDeleteRef (l1 ++ l2 ++ l3) = []) as Hnd.
  { intros l3 a b H3. rewrite !List.filter_app, (tally_no_delete _ _ _ H1),
      (tally_no_delete _ _ _ H2), (tally_no_delete _ _ _ H3). reflexivity. }
  apply Ensures_call. intros g3 [err|upd] E3.
  { apply Ensures_ret. split; [right; failed|].
    eapply (Hnd [_]). reflexivity. }
  apply Ensures_call. intros g4 [err|fin] E4.
  { apply Ensures_ret. split; [right; failed|].
    eapply (Hnd [_; _]). reflexivity. }
  apply Ensures_call. intros g5 [err|ref] E5.
  { apply Ensures_ret. split; [right; failed|].
    eapply (Hnd [_; _; _]). reflexivity. }
  apply Ensures_ret.
  apply (tally_app _ _ _ _ _ _ _ _ H1).
  apply (tally_app _ _ _ _ _ 3%nat 1%nat 0%nat H2). reflexivity.
Qed.

Lemma deletesLast_app (branch : string) (l1 l2 : list call) :
  List.filter isDeleteRef l1 = [] -> deletesLast c branch l2 ->
  deletesLast c branch (l1 ++ l2).
Proof.
  intros H1 [H2|(l0 & -> & H0)].
  - left. rewrite List.filter_app, H1, H2. reflexivity.
  - right. exists (l1 ++ l0). rewrite app_assoc, List.filter_app, H1, H0. auto.
Qed.

Lemma cherryPickLoop_shape (branch : string) (commits : list string) :
  forall (head : Commit.t) (g : G),
  Ensures h (cherryPickLoop c branch commits head) g
    (fun g' l r =>
       match r with
       | inr _ => tally l = (8 * List.length commits, 2 * List.length commits, 0)%nat
       | inl _ => deletesLast c branch l
       end).
Proof.
  induction commits as [|x rest IH]; intros head g; cbn [cherryPickLoop].
  - apply Ensures_ret. reflexivity.
  - apply Ensures_call. intros g1 [err|cherry] E1.
    { apply Ensures_ret. left. reflexivity. }
    eapply Ensures_bind; [apply cherryPickCommit_shape|].
    intros g2 l1 [err|[tree sha]] H1.
    + destruct H1 as [_ Hd].
      apply Ensures_call. intros g3 d E3. apply Ensures_ret.
      right. exists (Call (Git_GetCommit (org c) (rep c) x) :: l1).
      split; [reflexivity|]. cbn [List.filter isDeleteRef]. exact Hd.
    + eapply Ensures_weaken; [apply IH|].
      intros g' l2 [err|hd] H2.
      * apply (deletesLast_app branch (_ :: l1) l2); [|exact H2].
        cbn [List.filter isDeleteRef]. exact (tally_no_delete _ _ _ H1).
      * change (Call (Git_GetCommit (org c) (rep c) x) :: l1 ++ l2)
          with ([Call (Git_GetCommit (org c) (rep c) x)] ++ (l1 ++ l2)).
        rewrite (tally_app [Call (Git_GetCommit (org c) (rep c) x)] (l1 ++ l2) 1 0 0 _ _ _
                   eq_refl (tally_app _ _ _ _ _ _ _ _ H1 H2)).
        cbn [List.length]. apply f_equal2; [apply f_equal2|]; lia.
Qed.

Lemma createBranchFrom_shape (base newBranch : string) (g : G) :
  Ensures h (createBranchFrom c base newBranch) g
    (fun _ l a =>
       match a with
       | None => tally l = (2, 0, 0)%nat
       | Some _ => List.filter isDeleteRef l = []
       end).
Proof.
  unfold createBranchFrom.
  apply Ensures_call. intros g1 [err|b] E1; [apply Ensures_ret; reflexivity|].
  apply Ensures_call. intros g2 [err|ref] E2; apply Ensures_ret; reflexivity.
Qed.

Lemma cherryPickCommitsOnBranch_shape (branch : string) (commits : list string) (g : G) :
  Ensures h (cherryPickCommitsOnBranch c branch commits) g
    (fun _ l a =>
       match a with
       | None => tally l = (2 + 8 * List.length commits, 2 * List.length commits, 0)%nat
       | Some _ => deletesLast c branch l
       end).
Proof.
  unfold cherryPickCommitsOnBranch.
  apply Ensures_call. intros g2 [err|nb] E2; [apply Ensures_ret; left; reflexivity|].
  apply Ensures_call. intros g3 [err|head] E3; [apply Ensures_ret; left; reflexivity|].
  eapply Ensures_bind; [apply cherryPickLoop_shape|].
  intros g4 l2 [err|hd] H2; apply Ensures_ret; rewrite app_nil_r.
  - apply (deletesLast_app _ [_; _] l2); [reflexivity | exact H2].
  - match goal with
    | |- tally (?a :: ?b :: l2) = _ =>
        change (a :: b :: l2) with ([a; b] ++ l2);
        rewrite (tally_app [a; b] l2 2 0 0 _ _ _ eq_refl H2)
    end.
    reflexivity.
Qed.

Lemma Backport_shape (base source : string) (commits : list string) (g : G) :
  Ensures h (Backport c base source commits) g
    (fun g' l r =>
       match r with
       | inr _ =>
           tally l = (4 + 8 * List.length commits, 2 * List.length commits, 0)%nat
       | inl _ => deletesLast c (newBranchName base source) l
       end).
Proof.
  unfold Backport.
  eapply Ensures_bind; [apply createBranchFrom_shape|].
  intros g1 l1 [err|] H1.
  { apply Ensures_ret. rewrite app_nil_r. left. exact H1. }
  eapply Ensures_bind; [apply cherryPickCommitsOnBranch_shape|].
  intros g2 l2 [err|] H2; apply Ensures_ret; rewrite app_nil_r.
  - apply deletesLast_app; [exact (tally_no_delete _ _ _ H1) | exact H2].
  - rewrite (tally_app _ _ _ _ _ _ _ _ H1 H2). reflexivity.
Qed.

End Shape.

(* ================================================================== *)
(** ** Properties of the runs of the engine *)

(** A [Backport] that returns a branch name has made exactly
    [4 + 8 * len(commits)] calls: the four that create and read the
    new branch, and for each commit its fetch and the seven calls of
    the step.  It has created two commits per commit picked and has
    asked for no deletion; the name is the computed one. *)
Theorem Backport_success_shape (c : Client) (base source : string) (commits : list string)
    (G : Type) (h : host G) (g g' : G) (l : list call) (name : string) :
  Returns h (Backport c base source commits) g g' l (inr name) ->
  name = newBranchName base source /\
  List.length l = (4 + 8 * List.length commits)%nat /\
  List.length (List.filter isCreateCommit l) = (2 * List.length commits)%nat /\
  List.filter isDeleteRef l = [].
Proof.
  intros H. split; [exact (Backport_name h c base source commits g g' l name H)|].
  pose proof (Backport_shape h c base source commits g g' l (inr name) H) as Hs.
  cbn beta iota in Hs. pose proof (tally_no_delete _ _ _ Hs) as Hd.
  unfold tally in Hs. injection Hs as Hl Hc _. auto.
Qed.

Lemma Backport_success_shape_witness :
  exists g' l,
    Returns MemHost.serve (Backport Example.clt "release/1.0" "feature-x" ["C1"; "C2"])
      Example.repo g' l (inr "auto-backport/release/1.0/feature-x") /\
    List.length l = 20%nat /\
    List.length (List.filter isCreateCommit l) = 4%nat.
Proof.
  assert (exists g' l,
            Returns MemHost.serve (Backport Example.clt "release/1.0" "feature-x" ["C1"; "C2"])
              Example.repo g' l (inr "auto-backport/release/1.0/feature-x"))
    as (g' & l & H) by (do 2 eexists; exists 60%nat; vm_compute; reflexivity).
  exists g', l. split; [exact H|].
  pose proof (Backport_success_shape Example.clt "release/1.0" "feature-x" ["C1"; "C2"]
                MemHost.t MemHost.serve Example.repo g' l _ H) as (_ & Hl & Hc & _).
  split; [exact Hl | exact Hc].
Defined.

(** A [Backport] that fails has asked for the deletion of the new
    reference at most once, as its last call, and for no other
    deletion. *)
Theorem Backport_deletes_last (c : Client) (base source : string) (commits : list string)
    (G : Type) (h : host G) (g g' : G) (l : list call) (err : error) :
  Returns h (Backport c base source commits) g g' l (inl err) ->
  List.filter isDeleteRef l = [] \/
  exists l0,
    l = l0 ++ [Call (Git_DeleteRef (org c) (rep c)
                       ("refs/heads/" ++ newBranchName base source)%string)] /\
    List.filter isDeleteRef l0 = [].
Proof.
  intros H. exact (Backport_shape h c base source commits g g' l (inl err) H).
Qed.

Lemma Backport_deletes_last_witness :
  exists g' l err,
    Returns MemHost.serve (Backport Example.clt "release/1.0" "feature-x" ["C1"; "M"])
      Example.repo g' l (inl err) /\
    (List.filter isDeleteRef l = [] \/
     exists l0,
       l = l0 ++ [Call (Git_DeleteRef "gravitational" "teleport"
                          "refs/heads/auto-backport/release/1.0/feature-x")] /\
       List.filter isDeleteRef l0 = []).
Proof.
  assert (exists g' l err,
            Returns MemHost.serve (Backport Example.clt "release/1.0" "feature-x" ["C1"; "M"])
              Example.repo g' l (inl err))
    as (g' & l & err & H) by (do 3 eexists; exists 60%nat; vm_compute; reflexivity).
  exists g', l, err. split; [exact H|].
  exact (Backport_deletes_last Example.clt "release/1.0" "feature-x" ["C1"; "M"]
           MemHost.t MemHost.serve Example.repo g' l err H).
Defined.

(* ================================================================== *)
(** ** The answers behind a run *)

Section Replay.

Context {G : Type} (h : host G).

Lemma answers_call {X} (e : gitE X) (g g1 g' : G) (x : X) (l : list call)
    (os : list (option error)) :
  h _ e g = (g1, x) -> answers h g1 l = (g', os) ->
  answers h g (Call e :: l) = (g', refusal e x :: os).
Proof. intros E H. cbn [answers]. rewrite E, H. reflexivity. Qed.

Lemma answers_app (l1 l2 : list call) :
  forall (g g1 g' : G) (os1 os2 : list (option error)),
  answers h g l1 = (g1, os1) -> answers h g1 l2 = (g', os2) ->
  answers h g (l1 ++ l2) = (g', os1 ++ os2).
Proof.
  induction l1 as [|[X e] l1 IH]; intros g g1 g' os1 os2 H1 H2.
  - cbn [answers] in H1. injection H1 as <- <-. exact H2.
  - cbn [answers app] in H1 |- *. destruct (h X e g) as [g0 x].
    destruct (answers h g0 l1) as [g3 os] eqn:E1. injection H1 as <- <-.
    rewrite (IH g0 g3 g' os os2 E1 H2). reflexivity.
Qed.

Lemma unrefused_nil (g : G) : unrefused h g g [].
Proof. reflexivity. Qed.

Lemma unrefused_call {X} (e : gitE X) (g g1 g' : G) (x : X) (l : list call) :
  h _ e g = (g1, x) -> refusal e x = None -> unrefused h g1 g' l ->
  unrefused h g g' (Call e :: l).
Proof.
  unfold unrefused. intros E Hx H. rewrite (answers_call e g g1 g' x l _ E H), Hx.
  reflexivity.
Qed.

Lemma unrefused_app (g g1 g' : G) (l1 l2 : list call) :
  unrefused h g g1 l1 -> unrefused h g1 g' l2 -> unrefused h g g' (l1 ++ l2).
Proof.
  unfold unrefused. intros H1 H2. rewrite (answers_app l1 l2 g g1 g' _ _ H1 H2).
  rewrite List.length_app, List.repeat_app. reflexivity.
Qed.

Lemma refusedLast_now {X} (e : gitE X) (g g' : G) (x : X) (e0 err : error) :
  h _ e g = (g', x) -> refusal e x = Some e0 -> Unwrap err = Unwrap e0 ->
  refusedLast h g g' [Call e] err.
Proof.
  intros E Hx Hu. exists [], (Call e), e0. split; [reflexivity|]. split; [|exact Hu].
  rewrite (answers_call e g g' g' x [] [] E eq_refl), Hx. reflexivity.
Qed.

Lemma refusedLast_app (g g1 g' : G) (l1 l2 : list call) (err : error) :
  unrefused h g g1 l1 -> refusedLast h g1 g' l2 err -> refusedLast h g g' (l1 ++ l2) err.
Proof.
  unfold unrefused. intros H1 (l0 & k & e0 & -> & H2 & Hu).
  exists (l1 ++ l0), k, e0. split; [apply List.app_assoc|]. split; [|exact Hu].
  rewrite (answers_app l1 (l0 ++ [k]) g g1 g' _ _ H1 H2).
  rewrite List.length_app, List.repeat_app, List.app_assoc. reflexivity.
Qed.

Lemma refusedLast_call {X} (e : gitE X) (g g1 g' : G) (x : X) (l : list call) (err : error) :
  h _ e g = (g1, x) -> refusal e x = None -> refusedLast h g1 g' l err ->
  refusedLast h g g' (Call e :: l) err.
Proof.
  intros E Hx H. apply (refusedLast_app g g1 g' [Call e] l err); [|exact H].
  apply (unrefused_call e g g1 g1 x []); [exact E | exact Hx | apply unrefused_nil].
Qed.

Lemma refusedLast_Wrap (g g' : G) (l : list call) (err : error) :
  refusedLast h g g' l err -> refusedLast h g g' l (Wrap err).
Proof. intros (l0 & k & e0 & E & H & Hu). exists l0, k, e0. auto. Qed.

Context (c : Client).

Lemma createSiblingCommit_answers (branch : string) (tip parent : Commit.t) (g : G) :
  Ensures h (createSiblingCommit c branch tip parent) g
    (fun g' l a =>
       match a with
       | None => unrefused h g g' l
       | Some e => refusedLast h g g' l e
       end).
Proof.
  unfold createSiblingCommit.
  apply Ensures_call. intros g1 [err|sib] E1.
  - apply Ensures_ret. apply refusedLast_Wrap.
    eapply refusedLast_now; [exact E1 | reflexivity | reflexivity].
  - apply Ensures_call. intros g2 [err|ref] E2; apply Ensures_ret.
    + eapply refusedLast_call; [exact E1 | reflexivity |]. apply refusedLast_Wrap.
      eapply refusedLast_now; [exact E2 | reflexivity | reflexivity].
    + eapply unrefused_call; [exact E1 | reflexivity |].
      eapply unrefused_call; [exact E2 | reflexivity | apply unrefused_nil].
Qed.

Lemma merge_answers (branch headSHA : string) (g : G) :
  Ensures h (merge c branch headSHA) g
    (fun g' l r =>
       match r with
       | inr _ => unrefused h g g' l
       | inl e => refusedLast h g g' l e
       end).
Proof.
  unfold merge.
  apply Ensures_call. intros g1 [err|m] E1.
  - apply Ensures_ret. apply refusedLast_Wrap.
    eapply refusedLast_now; [exact E1 | reflexivity | reflexivity].
  - apply Ensures_call. intros g2 [err|mc] E2; apply Ensures_ret.
    + eapply refusedLast_call; [exact E1 | reflexivity |]. apply refusedLast_Wrap.
      eapply refusedLast_now; [exact E2 | reflexivity | reflexivity].
    + eapply unrefused_call; [exact E1 | reflexivity |].
      eapply unrefused_call; [exact E2 | reflexivity | apply unrefused_nil].
Qed.

End Replay.

(** The outcomes of a step.  A step asks for no deletion and makes at
    most seven calls.  The host's answers to the calls of the log, put
    to it again in order from the state the step started in, are these.
    When the step succeeds: seven calls, two of which create a commit,
    none answered with an error.  When it fails: either the commit has
    not exactly one parent and no call was made, or the last call of
    the log is the only one the host answered with an error, and the
    error returned has that error as its root.  In each case the host
    ends in the state the answers leave it in. *)
Theorem cherryPickCommit_outcomes (c : Client) (branch : string) (cherry tip : Commit.t)
    (G : Type) (h : host G) (g g' : G) (l : list call)
    (r : result (option Tree.t * string)) :
  Returns h (cherryPickCommit c branch cherry tip) g g' l r ->
  List.filter isDeleteRef l = [] /\
  (List.length l <= 7)%nat /\
  match r with
  | inr _ =>
      List.length l = 7%nat /\ List.length (List.filter isCreateCommit l) = 2%nat /\
      answers h g l = (g', List.repeat None 7)
  | inl e =>
      (List.length (Commit.Parents cherry) <> 1%nat /\
       l = [] /\ g' = g /\ e = BadParameter "merge commits are not supported") \/
      (List.length (Commit.Parents cherry) = 1%nat /\
       exists (l0 : list call) (k : call) (e0 : error),
         l = l0 ++ [k] /\
         answers h g l = (g', List.repeat None (List.length l0) ++ [Some e0]) /\
         Unwrap e = Unwrap e0)
  end.
Proof.
  intros H.
  pose proof (cherryPickCommit_shape h c branch cherry tip g g' l r H) as Hs.
  pose proof (cherryPickCommit_atmost c branch cherry tip G h g g' l r H) as Hb.
  cbn beta in Hb.
  assert (Ensures h (cherryPickCommit c branch cherry tip) g
            (fun g' l r =>
               match r with
               | inr _ => unrefused h g g' l
               | inl e =>
                   (List.length (Commit.Parents cherry) <> 1%nat /\
                    l = [] /\ g' = g /\ e = BadParameter "merge commits are not supported") \/
                   (List.length (Commit.Parents cherry) = 1%nat /\ refusedLast h g g' l e)
               end)) as HA.
  { unfold cherryPickCommit.
    destruct (Commit.Parents cherry) as [|parent [|q ps]];
      try (apply Ensures_ret; left; cbn [List.length]; repeat split; discriminate).
    eapply Ensures_bind; [apply createSiblingCommit_answers|].
    intros g1 l1 [err|] H1.
    { apply Ensures_ret. rewrite app_nil_r. right. split; [reflexivity|].
      apply refusedLast_Wrap. exact H1. }
    eapply Ensures_bind; [apply merge_answers|].
    intros g2 l2 [err|mc] H2.
    { apply Ensures_ret. rewrite app_nil_r. right. split; [reflexivity|].
      apply refusedLast_Wrap. eapply refusedLast_app; eassumption. }
    apply Ensures_call. intros g3 [err|upd] E3.
    { apply Ensures_ret. right. split; [reflexivity|]. apply refusedLast_Wrap.
      eapply refusedLast_app; [exact H1|]. eapply refusedLast_app; [exact H2|].
      eapply refusedLast_now; [exact E3 | reflexivity | reflexivity]. }
    apply Ensures_call. intros g4 [err|fin] E4.
    { apply Ensures_ret. right. split; [reflexivity|]. apply refusedLast_Wrap.
      eapply refusedLast_app; [exact H1|]. eapply refusedLast_app; [exact H2|].
      eapply refusedLast_call; [exact E3 | reflexivity |].
      eapply refusedLast_now; [exact E4 | reflexivity | reflexivity]. }
    apply Ensures_call. intros g5 [err|ref] E5; apply Ensures_ret.
    { right. split; [reflexivity|]. apply refusedLast_Wrap.
      eapply refusedLast_app; [exact H1|]. eapply refusedLast_app; [exact H2|].
      eapply refusedLast_call; [exact E3 | reflexivity |].
      eapply refusedLast_call; [exact E4 | reflexivity |].
      eapply refusedLast_now; [exact E5 | reflexivity | reflexivity]. }
    eapply unrefused_app; [exact H1|]. eapply unrefused_app; [exact H2|].
    eapply unrefused_call; [exact E3 | reflexivity |].
    eapply unrefused_call; [exact E4 | reflexivity |].
    eapply unrefused_call; [exact E5 | reflexivity | apply unrefused_nil]. }
  specialize (HA g' l r H). cbn beta in HA.
  destruct r as [e|v].
  - destruct Hs as [_ Hd]. split; [exact Hd|]. split; [exact Hb | exact HA].
  - split; [exact (tally_no_delete _ _ _ Hs)|]. split; [exact Hb|].
    unfold tally in Hs. injection Hs as Hl Hc _.
    split; [exact Hl|]. split; [exact Hc|].
    unfold unrefused in HA. rewrite Hl in HA. exact HA.
Qed.

(** A step on a branch the host does not know: the sibling commit is
    created, the update of the reference fails, nothing follows. *)
Lemma cherryPickCommit_outcomes_witness :
  exists g' l,
    Returns MemHost.serve (cherryPickCommit Example.clt "nowhere" Example.C1 Example.R)
      Example.repo g' l (inl (Wrap (Wrap (HostError "Reference does not exist")))) /\
    List.filter isDeleteRef l = [] /\
    (List.length l <= 7)%nat /\
    ((List.length (Commit.Parents Example.C1) <> 1%nat /\
      l = [] /\ g' = Example.repo /\
      Wrap (Wrap (HostError "Reference does not exist"))
        = BadParameter "merge commits are not supported") \/
     (List.length (Commit.Parents Example.C1) = 1%nat /\
      exists (l0 : list call) (k : call) (e0 : error),
        l = l0 ++ [k] /\
        answers MemHost.serve Example.repo l
          = (g', List.repeat None (List.length l0) ++ [Some e0]) /\
        Unwrap (Wrap (Wrap (HostError "Reference does not exist"))) = Unwrap e0)).
Proof.
  assert (exists g' l,
            Returns MemHost.serve (cherryPickCommit Example.clt "nowhere" Example.C1 Example.R)
              Example.repo g' l
              (inl (Wrap (Wrap (HostError "Reference does not exist")))))
    as (g' & l & H) by (do 2 eexists; exists 10%nat; vm_compute; reflexivity).
  exists g', l. split; [exact H|].
  exact (cherryPickCommit_outcomes Example.clt "nowhere" Example.C1 Example.R
           MemHost.t MemHost.serve Example.repo g' l _ H).
Defined.

Lemma Backport_writes_new_branch_only_witness :
  exists g' l,
    Returns MemHost.serve (Backport Example.clt "release/1.0" "feature-x" ["C1"; "C2"])
      Example.repo g' l (inr "auto-backport/release/1.0/feature-x") /\
    List.Forall (fun k => onBranch "auto-backport/release/1.0/feature-x" k /\
                          addressee k = ("gravitational", "teleport")) l.
Proof.
  assert (exists g' l,
            Returns MemHost.serve (Backport Example.clt "release/1.0" "feature-x" ["C1"; "C2"])
              Example.repo g' l (inr "auto-backport/release/1.0/feature-x"))
    as (g' & l & H) by (do 2 eexists; exists 60%nat; vm_compute; reflexivity).
  exists g', l. split; [exact H|].
  exact (Backport_writes_new_branch_only Example.clt "release/1.0" "feature-x" ["C1"; "C2"]
           MemHost.t MemHost.serve Example.repo g' l _ H).
Defined.

Section Composition.

Context {G : Type} (h : host G) (c : Client).

(** A loop that fails on [pre] fails in the same way on [pre ++ rest]. *)
Lemma cherryPickLoop_fails_early (branch : string) (pre rest : list string) :
  forall (head : Commit.t) (g g' : G) (l : list call) (e : error),
  Returns h (cherryPickLoop c branch pre head) g g' l (inl e) <->
  Returns h (cherryPickLoop c branch pre head) g g' l (inl e) /\
  Returns h (cherryPickLoop c branch (pre ++ rest) head) g g' l (inl e).
Proof.
  induction pre as [|x pre IH]; intros head g g' l e.
  - split; [|tauto]. intros H. cbn [cherryPickLoop] in H.
    apply Returns_ret_inv in H. destruct H as (_ & _ & H). discriminate.
  - split; [|tauto]. intros H. split; [exact H|].
    cbn [cherryPickLoop app] in H |- *.
    apply Returns_call_inv in H. destruct H as (g1 & [err|cherry] & l' & E & Hk & ->).
    + eapply Returns_call; [exact E | exact Hk].
    + apply Returns_bind_inv in Hk.
      destruct Hk as (g2 & l1 & [err|[tree sha]] & l2 & Hs & Hk & ->).
      * eapply Returns_call; [exact E|]. eapply Returns_bind; [exact Hs | exact Hk].
      * eapply Returns_call; [exact E|]. eapply Returns_bind; [exact Hs|].
        apply IH. exact Hk.
Qed.

Lemma cherryPickLoop_app_inv (branch : string) (pre rest : list string) :
  forall (head : Commit.t) (g g2 : G) (l : list call) (r : result Commit.t),
  Returns h (cherryPickLoop c branch (pre ++ rest) head) g g2 l r ->
  (exists head' g1 l1 l2,
     Returns h (cherryPickLoop c branch pre head) g g1 l1 (inr head') /\
     Returns h (cherryPickLoop c branch rest head') g1 g2 l2 r /\
     l = l1 ++ l2) \/
  (exists e, r = inl e /\ Returns h (cherryPickLoop c branch pre head) g g2 l (inl e)).
Proof.
  induction pre as [|x pre IH]; intros head g g2 l r H.
  - left. exists head, g, [], l. split; [apply Returns_ret | auto].
  - cbn [cherryPickLoop app] in H.
    apply Returns_call_inv in H. destruct H as (g1 & [err|cherry] & l' & E & Hk & ->).
    + right. apply Returns_ret_inv in Hk. destruct Hk as (-> & -> & ->).
      eexists. split; [reflexivity|]. apply cherryPickLoop_fetch_failure. exact E.
    + apply Returns_bind_inv in Hk.
      destruct Hk as (ga & la & [err|[tree sha]] & lb & Hs & Hk & ->).
      * right. apply Returns_call_inv in Hk. destruct Hk as (gb & d & l'' & Ed & Hk & ->).
        apply Returns_ret_inv in Hk. destruct Hk as (-> & -> & ->).
        eexists. split; [reflexivity|].
        eapply cherryPickLoop_fail; eassumption.
      * destruct (IH _ _ _ _ _ Hk) as [(head' & gb & l1 & l2 & Hp & Hr & ->) | (e & -> & Hp)].
        -- left. exists head', gb, (Call (Git_GetCommit (org c) (rep c) x) :: la ++ l1), l2.
           split; [eapply cherryPickLoop_ok; eassumption|]. split; [exact Hr|].
           cbn [app]. rewrite <- app_assoc. reflexivity.
        -- right. exists e. split; [reflexivity|].
           eapply cherryPickLoop_ok; eassumption.
Qed.

(** Picking [pre ++ rest] is picking [pre] and then, if that went
    well, picking [rest] from the head commit [pre] ended with; a
    failure on [pre] is the failure of the whole, and [rest] is not
    touched. *)
Theorem cherryPickLoop_split (branch : string) (pre rest : list string)
    (head : Commit.t) (g g2 : G) (l : list call) (r : result Commit.t) :
  Returns h (cherryPickLoop c branch (pre ++ rest) head) g g2 l r <->
  (exists head' g1 l1 l2,
     Returns h (cherryPickLoop c branch pre head) g g1 l1 (inr head') /\
     Returns h (cherryPickLoop c branch rest head') g1 g2 l2 r /\
     l = l1 ++ l2) \/
  (exists e, r = inl e /\ Returns h (cherryPickLoop c branch pre head) g g2 l (inl e)).
Proof.
  split; [apply cherryPickLoop_app_inv|].
  intros [(head' & g1 & l1 & l2 & Hp & Hr & ->) | (e & -> & Hp)].
  - eapply cherryPickLoop_app; eassumption.
  - apply (cherryPickLoop_fails_early branch pre rest). exact Hp.
Qed.

(** When the commit to pick cannot be fetched, [Backport] returns the
    host's error without asking for the deletion of the branch it
    created: the host is left in the state the failed fetch left. *)
Theorem Backport_fetch_failure (base source : string) (pre post : list string)
    (x : string) (nb : Branch.t) (head head' : Commit.t) (err : error)
    (g g1 g2 g3 g4 g5 : G) (l1 l2 : list call) :
  Returns h (createBranchFrom c base (newBranchName base source)) g g1 l1 None ->
  h _ (Repositories_GetBranch (org c) (rep c) (newBranchName base source) true) g1
    = (g2, inr nb) ->
  h _ (Git_GetCommit (org c) (rep c) (RepositoryCommit.GetSHA (Branch.GetCommit nb))) g2
    = (g3, inr head) ->
  Returns h (cherryPickLoop c (newBranchName base source) pre head) g3 g4 l2 (inr head') ->
  h _ (Git_GetCommit (org c) (rep c) x) g4 = (g5, inl err) ->
  Returns h (Backport c base source (pre ++ x :: post)) g g5
    (l1 ++ openCalls c (newBranchName base source) nb ++ l2 ++
     [Call (Git_GetCommit (org c) (rep c) x)])
    (inl (Wrap (Wrap err))) /\
  List.filter isDeleteRef
    (l1 ++ openCalls c (newBranchName base source) nb ++ l2 ++
     [Call (Git_GetCommit (org c) (rep c) x)]) = [].
Proof.
  intros Hc Hb Hh Hpre Hx.
  pose proof (cherryPickLoop_fetch_failure h c (newBranchName base source) x post head'
                err g4 g5 Hx) as Hfail.
  pose proof (cherryPickLoop_app h c _ _ _ _ _ _ _ _ _ _ _ Hpre Hfail) as Hloop.
  split; [exact (Backport_run h c base source _ _ _ _ _ _ _ _ _ _ _ Hc Hb Hh Hloop)|].
  pose proof (createBranchFrom_shape h c _ _ _ _ _ _ Hc) as H1. cbn beta iota in H1.
  pose proof (cherryPickLoop_shape h c _ _ _ _ _ _ _ Hpre) as H2. cbn beta iota in H2.
  rewrite !List.filter_app, (tally_no_delete _ _ _ H1), (tally_no_delete _ _ _ H2).
  reflexivity.
Qed.

End Composition.

(** [C1] is picked, ["nowhere"] cannot be fetched: [Backport] fails,
    no deletion is asked for, and the branch is still there. *)
Lemma Backport_fetch_failure_witness :
  exists g5 l,
    Returns MemHost.serve
      (Backport Example.clt "release/1.0" "feature-x" (["C1"] ++ "nowhere" :: ["C2"]))
      Example.repo g5 l (inl (Wrap (Wrap (HostError "Not Found")))) /\
    List.filter isDeleteRef l = [] /\
    MemHost.lookup "refs/heads/auto-backport/release/1.0/feature-x" (MemHost.refs g5)
      = Some "sha2".
Proof.
  eassert (_ /\ _) as H.
  { eapply (Backport_fetch_failure MemHost.serve Example.clt "release/1.0" "feature-x"
              ["C1"] ["C2"] "nowhere" _ _ _ _ Example.repo).
    - exists 10%nat; vm_compute; reflexivity.
    - vm_compute; reflexivity.
    - vm_compute; reflexivity.
    - exists 40%nat; vm_compute; reflexivity.
    - vm_compute; reflexivity. }
  do 2 eexists. split; [exact (proj1 H)|]. split; [exact (proj2 H)|]. reflexivity.
Defined.

(* ================================================================== *)
(** ** Properties of the reading of a pull request *)

Section Listing.

Context {G : Type} (h : host G) (c : Client).

Lemma page_loop_fails (number : Z) (err : error) (g g' : G) (n : nat) :
  pagesFail h c number err g n g' ->
  forall st : pageState,
  Returns h (ITree.iter (pageStep c number) st) g g'
    (List.repeat (Call (listCall c number)) n) (inl (Wrap err)).
Proof.
  induction 1 as [g g' E | g g1 g' cs resp n E Hnz Hrest IH]; intros st.
  - apply Returns_iter.
    exists g', [Call (listCall c number)], (pageNext st (inl err)), [].
    split; [apply pageStep_run; exact E|]. cbn [pageNext]. auto.
  - apply Returns_iter.
    exists g1, [Call (listCall c number)], (pageNext st (inr (cs, resp))),
      (List.repeat (Call (listCall c number)) n).
    split; [apply pageStep_run; exact E|]. split; [|reflexivity].
    cbn [pageNext]. destruct (Z.eqb_spec (Response.NextPage resp) 0) as [Hz|_]; [tauto|].
    apply IH.
Qed.

Lemma page_loop_fails_inv (number : Z) (st : pageState) (g g' : G) (l : list call)
    (r : result (list string)) :
  Returns h (ITree.iter (pageStep c number) st) g g' l r ->
  match r with
  | inl e =>
      exists err n, pagesFail h c number err g n g' /\ e = Wrap err /\
                    l = List.repeat (Call (listCall c number)) n
  | inr _ => True
  end.
Proof.
  revert st g g' l r.
  apply (Returns_iter_ind h (pageStep c number)
           (fun st g g' l r =>
              match r with
              | inl e =>
                  exists err n, pagesFail h c number err g n g' /\ e = Wrap err /\
                                l = List.repeat (Call (listCall c number)) n
              | inr _ => True
              end)).
  - intros st g g1 l1 r Hb. destruct r as [e|out]; [|exact I].
    apply pageStep_inv in Hb. destruct Hb as (x & E & -> & Ha).
    destruct x as [err|[cs resp]]; cbn [pageNext] in Ha.
    + injection Ha as ->. exists err, 1%nat. split; [apply pagesFail_now; exact E | auto].
    + destruct (Response.NextPage resp =? 0); discriminate.
  - intros st g g1 l1 st' g' l2 r Hb _ IH. destruct r as [e|out]; [|exact I].
    destruct IH as (err & n & Hp & -> & ->).
    apply pageStep_inv in Hb. destruct Hb as (x & E & -> & Ha).
    destruct x as [err'|[cs resp]]; cbn [pageNext] in Ha; [discriminate|].
    destruct (Z.eqb_spec (Response.NextPage resp) 0) as [Hz|Hnz]; [discriminate|].
    exists err, (S n). split; [eapply pagesFail_later; eassumption | auto].
Qed.

(** [getPullRequestCommits] returns an error exactly when, after
    successful answers that all announce a next page, the host answers
    a request with an error: the error returned is that one, wrapped,
    and the shas gathered so far are dropped. *)
Theorem getPullRequestCommits_fails (number : Z) (g g' : G) (l : list call) (e : error) :
  Returns h (getPullRequestCommits c number) g g' l (inl e) <->
  exists (err : error) (n : nat),
    pagesFail h c number err g n g' /\
    e = Wrap err /\
    l = List.repeat (Call (listCall c number)) n.
Proof.
  unfold getPullRequestCommits. split.
  - intros H. apply page_loop_fails_inv in H. exact H.
  - intros (err & n & Hp & -> & ->). apply page_loop_fails. exact Hp.
Qed.

Lemma pageStep_requests (number : Z) (st : pageState) :
  Always (fun k => k = Call (listCall c number)) (pageStep c number st).
Proof.
  destruct st as [acc opts]. unfold pageStep. fold (listCall c number).
  apply Always_call; [reflexivity|]. intros [err|[cs resp]]; [apply Always_ret|].
  destruct (Response.NextPage resp =? 0); apply Always_ret.
Qed.

Lemma pageStep_failedLast (number : Z) (st : pageState) (g : G) :
  Ensures h (pageStep c number st) g
    (fun g' l a =>
       match a with
       | inr (inl e) => failedLast h g' l e
       | _ => True
       end).
Proof.
  intros g' l a H. apply pageStep_inv in H. destruct H as (x & E & -> & ->).
  destruct x as [err|[cs resp]]; cbn [pageNext].
  - apply failedLast_Wrap. eapply failedLast_call. exact E.
  - destruct (Response.NextPage resp =? 0); exact I.
Qed.

Lemma getPullRequestCommits_failedLast (number : Z) (g : G) :
  Ensures h (getPullRequestCommits c number) g
    (fun g' l r => match r with inl e => failedLast h g' l e | inr _ => True end).
Proof.
  unfold getPullRequestCommits.
  apply (Ensures_iter h (pageStep c number) (fun _ => True)
           (fun g' l r => match r with inl e => failedLast h g' l e | inr _ => True end)).
  - intros st g1. eapply Ensures_weaken; [apply pageStep_failedLast|].
    intros g' l [st'|[e|out]] H; auto.
  - intros l1 g' l2 [e|out] _ H; [apply failedLast_app; exact H | exact I].
Qed.

(** The errors of [GetPullRequestMetadata].  It returns an error for a
    pull request that is not closed, or, when closed, not based on
    master: the only call is then the fetch of the pull request, the
    state is checked before the base, and the message carries the
    number asked for in decimal.  Every other error is the host's,
    wrapped, from the last call made. *)
Theorem GetPullRequestMetadata_errors (number : Z) (g g' : G) (l : list call) (e : error) :
  Returns h (GetPullRequestMetadata c number) g g' l (inl e) ->
  (exists pull,
     h _ (getCall c number) g = (g', inr pull) /\ l = [Call (getCall c number)] /\
     (PullRequest.GetState pull <> "closed" /\
      e = Errorf ("pull request " ++ Itoa number ++ " is not closed") \/
      PullRequest.GetState pull = "closed" /\
      TrimPrefix (PullRequestBranch.GetRef (PullRequest.GetBase pull)) "refs/heads/"
        <> "master" /\
      e = Errorf ("pull request " ++ Itoa number ++ "'s base is not master"))) \/
  (exists (l0 : list call) (X : Type) (ev : gitE (result X)) (g0 : G) (e0 : error),
     l = l0 ++ [Call ev] /\ h _ ev g0 = (g', inl e0) /\ Unwrap e = Unwrap e0).
Proof.
  unfold GetPullRequestMetadata. fold (getCall c number). intros H.
  apply Returns_call_inv in H. destruct H as (g1 & [e0|pull] & l' & E & Hk & ->).
  - apply Returns_ret_inv in Hk. destruct Hk as (-> & -> & Hk). injection Hk as ->.
    right. apply failedLast_Wrap. eapply failedLast_call. exact E.
  - destruct (String.eqb_spec (PullRequest.GetState pull) backportPRState) as [Es|Es];
      cbn [negb] in Hk.
    2:{ apply Returns_ret_inv in Hk. destruct Hk as (-> & -> & Hk). injection Hk as ->.
        left. exists pull. split; [exact E|]. split; [reflexivity|]. left.
        split; [exact Es | reflexivity]. }
    destruct (String.eqb_spec
                (TrimPrefix (PullRequestBranch.GetRef (PullRequest.GetBase pull)) branchRefPrefix)
                masterBranchName) as [Eb|Eb]; cbn [negb] in Hk.
    2:{ apply Returns_ret_inv in Hk. destruct Hk as (-> & -> & Hk). injection Hk as ->.
        left. exists pull. split; [exact E|]. split; [reflexivity|]. right.
        split; [exact Es|]. split; [exact Eb | reflexivity]. }
    right. apply Returns_bind_inv in Hk.
    destruct Hk as (g2 & l1 & [e0|commits] & l2 & Hl & Hk & ->).
    + apply Returns_ret_inv in Hk. destruct Hk as (-> & -> & Hk). injection Hk as ->.
      apply getPullRequestCommits_failedLast in Hl. cbn beta iota in Hl.
      rewrite app_nil_r. apply failedLast_Wrap.
      apply (failedLast_app h g2 [Call (getCall c number)] l1). exact Hl.
    + apply Returns_ret_inv in Hk. destruct Hk as (_ & _ & Hk). discriminate.
Qed.

(** Every request of the page loop is the same one: the default page,
    with the default page size. *)
Theorem getPullRequestCommits_requests (number : Z) (g g' : G) (l : list call)
    (r : result (list string)) :
  Returns h (getPullRequestCommits c number) g g' l r ->
  List.Forall
    (fun k => k = Call (PullRequests_ListCommits (org c) (rep c) number
                          {| ListOptions.Page := 0; ListOptions.PerPage := 0 |})) l.
Proof.
  intros H.
  exact (Always_iter _ (pageStep c number) (pageStep_requests number) _ G h g g' l r H).
Qed.

End Listing.

(* ================================================================== *)
(** ** The metadata of a pull request *)

Section Metadata.

Context {G : Type} (h : host G) (c : Client).


End Metadata.


(** The open pull request 8: one call, and the message for a pull
    request that is not closed. *)
Lemma GetPullRequestMetadata_errors_witness :
  exists l,
    Returns MemHost.serve (GetPullRequestMetadata Example.clt 8) Example.repo Example.repo l
      (inl (Errorf "pull request 8 is not closed")) /\
    ((exists pull,
        MemHost.serve _ (getCall Example.clt 8) Example.repo = (Example.repo, inr pull) /\
        l = [Call (getCall Example.clt 8)] /\
        (PullRequest.GetState pull <> "closed" /\
         Errorf "pull request 8 is not closed"
           = Errorf ("pull request " ++ Itoa 8 ++ " is not closed") \/
         PullRequest.GetState pull = "closed" /\
         TrimPrefix (PullRequestBranch.GetRef (PullRequest.GetBase pull)) "refs/heads/"
           <> "master" /\
         Errorf "pull request 8 is not closed"
           = Errorf ("pull request " ++ Itoa 8 ++ "'s base is not master"))) \/
     (exists (l0 : list call) (X : Type) (ev : gitE (result X)) (g0 : MemHost.t) (e0 : error),
        l = l0 ++ [Call ev] /\ MemHost.serve _ ev g0 = (Example.repo, inl e0) /\
        Unwrap (Errorf "pull request 8 is not closed") = Unwrap e0)).
Proof.
  assert (exists l,
            Returns MemHost.serve (GetPullRequestMetadata Example.clt 8)
              Example.repo Example.repo l (inl (Errorf "pull request 8 is not closed")))
    as (l & H) by (eexists; exists 10%nat; vm_compute; reflexivity).
  exists l. split; [exact H|].
  exact (GetPullRequestMetadata_errors MemHost.serve Example.clt 8
           Example.repo Example.repo l _ H).
Defined.

Lemma getPullRequestCommits_requests_witness :
  exists l,
    Returns MemHost.serve (getPullRequestCommits Example.clt 7) Example.repo Example.repo l
      (inr ["C1"; "C2"]) /\
    List.Forall
      (fun k => k = Call (PullRequests_ListCommits "gravitational" "teleport" 7
                            {| ListOptions.Page := 0; ListOptions.PerPage := 0 |})) l.
Proof.
  assert (exists l,
            Returns MemHost.serve (getPullRequestCommits Example.clt 7)
              Example.repo Example.repo l (inr ["C1"; "C2"]))
    as (l & H) by (eexists; exists 10%nat; vm_compute; reflexivity).
  exists l. split; [exact H|].
  exact (getPullRequestCommits_requests MemHost.serve Example.clt 7
           Example.repo Example.repo l _ H).
Defined.

Lemma getPullRequestCommits_single_page_witness :
  Returns MemHost.serve (getPullRequestCommits Example.clt 7) Example.repo Example.repo
    [Call (listCall Example.clt 7)] (inr ["C1"; "C2"]).
Proof.
  refine (getPullRequestCommits_single_page MemHost.serve Example.clt 7
            Example.repo Example.repo
            [RepositoryCommit.mk (Some "C1"); RepositoryCommit.mk (Some "C2")]
            (Response.mk 0) _ _); reflexivity.
Defined.

(* ================================================================== *)
(** ** The names of the backport branches *)

Lemma append_assoc (a b d : string) : ((a ++ b) ++ d)%string = (a ++ b ++ d)%string.
Proof. induction a as [|x a IH]; cbn; [reflexivity | rewrite IH; reflexivity]. Qed.

Lemma length_append (a b : string) :
  String.length (a ++ b) = (String.length a + String.length b)%nat.
Proof. induction a as [|x a IH]; cbn; [reflexivity | rewrite IH; reflexivity]. Qed.

Lemma append_inj_l (a b d : string) : (a ++ b)%string = (a ++ d)%string -> b = d.
Proof. induction a as [|x a IH]; cbn; intros H; [exact H | injection H as H; auto]. Qed.

Lemma append_inj_r (a b d : string) : (a ++ d)%string = (b ++ d)%string -> a = b.
Proof.
  revert b. induction a as [|x a IH]; intros [|y b] H; cbn in H.
  - reflexivity.
  - exfalso. apply (f_equal String.length) in H. cbn in H.
    rewrite length_append in H. lia.
  - exfalso. apply (f_equal String.length) in H. cbn in H.
    rewrite length_append in H. lia.
  - injection H as -> H. f_equal. apply IH. exact H.
Qed.

Lemma append_sep_inj (sep : ascii) (a b s t : string) :
  occurs sep a = false -> occurs sep b = false ->
  (a ++ String sep s)%string = (b ++ String sep t)%string -> a = b /\ s = t.
Proof.
  revert b. induction a as [|x a IH]; intros [|y b] Ha Hb H; cbn in H, Ha, Hb.
  - injection H as ->. auto.
  - injection H as <- _. rewrite Ascii.eqb_refl in Hb. discriminate.
  - injection H as -> _. rewrite Ascii.eqb_refl in Ha. discriminate.
  - injection H as -> H. apply Bool.orb_false_iff in Ha, Hb.
    destruct (IH b (proj2 Ha) (proj2 Hb) H) as [-> ->]. auto.
Qed.

(** For bases without a slash, the name tells the base and the source
    apart: two pairs with the same name are the same pair. *)
Theorem newBranchName_inj (base1 source1 base2 source2 : string) :
  occurs "/" base1 = false -> occurs "/" base2 = false ->
  newBranchName base1 source1 = newBranchName base2 source2 ->
  base1 = base2 /\ source1 = source2.
Proof.
  unfold newBranchName. intros H1 H2 H.
  apply (append_inj_l "auto-backport/") in H.
  exact (append_sep_inj "/" base1 base2 source1 source2 H1 H2 H).
Qed.

Lemma newBranchName_inj_witness :
  occurs "/" "v7" = false /\
  newBranchName "v7" "fix/a" = "auto-backport/v7/fix/a" /\
  ("v7" = "v7" /\ "fix/a" = "fix/a").
Proof.
  split; [reflexivity|]. split; [reflexivity|].
  exact (newBranchName_inj "v7" "fix/a" "v7" "fix/a" eq_refl eq_refl eq_refl).
Defined.

(** In general the name does not tell the pair: a base with a slash in
    it and a source give the name of the base cut at the slash with
    the rest moved to the source; and the name is one-to-one in the
    base alone and in the source alone. *)
Theorem newBranchName_collision (base x source : string) :
  newBranchName (base ++ "/" ++ x) source = newBranchName base (x ++ "/" ++ source) /\
  (base ++ "/" ++ x)%string <> base /\
  (forall source', newBranchName base source = newBranchName base source' ->
                   source = source') /\
  (forall base', newBranchName base source = newBranchName base' source -> base = base').
Proof.
  unfold newBranchName. repeat split.
  - rewrite !append_assoc. reflexivity.
  - intros H. apply (f_equal String.length) in H. rewrite length_append in H.
    cbn in H. lia.
  - intros source' H. apply (append_inj_l "auto-backport/") in H.
    apply (append_inj_l base) in H. injection H as H. exact H.
  - intros base' H. apply (append_inj_l "auto-backport/") in H.
    apply (append_inj_r base base' (String "/" source)). exact H.
Qed.

(* ================================================================== *)
(** ** The list of target branches *)

Lemma Split_nonempty (s : string) (sep : ascii) : Split s sep <> [].
Proof.
  destruct s as [|a s]; cbn; [discriminate|].
  destruct (Ascii.eqb a sep); [discriminate|].
  destruct (Split s sep); discriminate.
Qed.

Lemma Split_length (s : string) (sep : ascii) :
  List.length (Split s sep) = S (countByte sep s).
Proof.
  induction s as [|a s IH]; cbn; [reflexivity|].
  destruct (Ascii.eqb a sep); cbn.
  - rewrite IH. reflexivity.
  - pose proof (Split_nonempty s sep) as Hn.
    destruct (Split s sep) as [|p ps]; [contradiction|]. exact IH.
Qed.

Lemma Split_no_sep (s : string) (sep : ascii) :
  occurs sep s = false -> Split s sep = [s].
Proof.
  induction s as [|a s IH]; cbn; intros H; [reflexivity|].
  apply Bool.orb_false_iff in H. destruct H as [Ha Hs].
  rewrite Ha, (IH Hs). reflexivity.
Qed.

Lemma Split_app_sep (a t : string) (sep : ascii) :
  occurs sep a = false -> Split (a ++ String sep t) sep = a :: Split t sep.
Proof.
  induction a as [|x a IH]; cbn; intros H.
  - rewrite Ascii.eqb_refl. reflexivity.
  - apply Bool.orb_false_iff in H. destruct H as [Hx Ha].
    rewrite Hx, (IH Ha). reflexivity.
Qed.

(** Splitting at the commas undoes joining with commas, for a list of
    names that is not empty and whose names have no comma. *)
Lemma Split_Join (names : list string) :
  names <> [] -> List.Forall (fun n => occurs "," n = false) names ->
  Split (Join names ",") "," = names.
Proof.
  induction names as [|a rest IH]; intros Hne Hall; [contradiction|].
  inversion Hall as [|? ? Ha Hrest]; subst.
  destruct rest as [|b rest'].
  - cbn. apply Split_no_sep. exact Ha.
  - change (Join (a :: b :: rest') ",") with (a ++ String "," (Join (b :: rest') ","))%string.
    rewrite (Split_app_sep _ _ _ Ha), IH; [reflexivity | discriminate | exact Hrest].
Qed.

Section Branches.

Variable TrimSpace : string -> string.

Lemma parseBranchesLoop_spec (branches acc : list string) :
  parseBranchesLoop TrimSpace branches acc =
  if List.existsb (fun b => String.eqb b "") branches
  then inl (BadParameter "recieved an empty branch name.")
  else inr (acc ++ List.map TrimSpace branches).
Proof.
  revert acc. induction branches as [|b bs IH]; intros acc; cbn.
  - rewrite app_nil_r. reflexivity.
  - destruct (String.eqb b ""); cbn; [reflexivity|].
    rewrite IH, <- app_assoc. reflexivity.
Qed.

Lemma existsb_empty (l : list string) :
  List.existsb (fun b => String.eqb b "") l = true <-> List.In EmptyString l.
Proof.
  rewrite List.existsb_exists. split.
  - intros (x & Hin & Hx). apply String.eqb_eq in Hx. subst. exact Hin.
  - intros Hin. exists EmptyString. auto.
Qed.

(** [parseBranches] returns the pieces between the commas, each one
    trimmed, when none of the pieces is empty, and the error when one
    is: the empty input, a comma at either end and two commas in a row
    are refused.  A piece is tested before it is trimmed. *)
Theorem parseBranches_spec (branchesInput : string) :
  (forall out,
     parseBranches TrimSpace branchesInput = inr out <->
     ~ List.In EmptyString (Split branchesInput ",") /\
     out = List.map TrimSpace (Split branchesInput ",")) /\
  (forall err,
     parseBranches TrimSpace branchesInput = inl err <->
     List.In EmptyString (Split branchesInput ",") /\
     err = BadParameter "recieved an empty branch name.").
Proof.
  unfold parseBranches. rewrite parseBranchesLoop_spec.
  destruct (List.existsb (fun b => String.eqb b "") (Split branchesInput ",")) eqn:E.
  - apply existsb_empty in E. split; intros x; split.
    + discriminate.
    + intros [Hn _]. contradiction.
    + intros H. injection H as <-. auto.
    + intros [_ ->]. reflexivity.
  - assert (~ List.In EmptyString (Split branchesInput ",")) as Hn.
    { intros Hin. apply existsb_empty in Hin. congruence. }
    split; intros x; split.
    + intros H. injection H as <-. auto.
    + intros [_ ->]. reflexivity.
    + discriminate.
    + intros [Hin _]. contradiction.
Qed.

(** A list of names joined with commas parses back to the names,
    trimmed, when the list is not empty and no name is empty or has a
    comma. *)
Theorem parseBranches_Join (names : list string) :
  names <> [] ->
  List.Forall (fun n => n <> EmptyString /\ occurs "," n = false) names ->
  parseBranches TrimSpace (Join names ",") = inr (List.map TrimSpace names).
Proof.
  intros Hne Hall. unfold parseBranches.
  rewrite Split_Join; [|exact Hne|].
  2:{ eapply List.Forall_impl; [|exact Hall]. intros n [_ Hn]. exact Hn. }
  rewrite parseBranchesLoop_spec.
  destruct (List.existsb (fun b => String.eqb b "") names) eqn:E; [|reflexivity].
  apply existsb_empty in E. rewrite List.Forall_forall in Hall.
  destruct (Hall _ E) as [Hn _]. contradiction.
Qed.

(** A list that parses has one name per comma, and one more: it is
    never empty. *)
Theorem parseBranches_length (branchesInput : string) (out : list string) :
  parseBranches TrimSpace branchesInput = inr out ->
  List.length out = S (countByte "," branchesInput).
Proof.
  unfold parseBranches. rewrite parseBranchesLoop_spec.
  destruct (List.existsb _ _); [discriminate|]. intros H. injection H as <-.
  cbn [app]. rewrite List.length_map. apply Split_length.
Qed.

End Branches.

Example parseBranches_examples :
  parseBranches asciiTrimSpace "branch/v6,branch/v7" = inr ["branch/v6"; "branch/v7"] /\
  parseBranches asciiTrimSpace "branch/v6, branch/v7 " = inr ["branch/v6"; "branch/v7"] /\
  parseBranches asciiTrimSpace "" = inl (BadParameter "recieved an empty branch name.") /\
  parseBranches asciiTrimSpace "a,,b" = inl (BadParameter "recieved an empty branch name.") /\
  parseBranches asciiTrimSpace "a," = inl (BadParameter "recieved an empty branch name.") /\
  parseBranches asciiTrimSpace "a, ,b" = inr ["a"; ""; "b"].
Proof. repeat split. Qed.

Lemma parseBranches_Join_witness :
  parseBranches asciiTrimSpace (Join ["branch/v6"; " branch/v7"] ",")
  = inr (List.map asciiTrimSpace ["branch/v6"; " branch/v7"]).
Proof.
  apply (parseBranches_Join asciiTrimSpace ["branch/v6"; " branch/v7"]).
  - discriminate.
  - repeat constructor; discriminate.
Defined.

Lemma parseBranches_length_witness :
  List.length ["branch/v6"; "branch/v7"] = S (countByte "," "branch/v6,branch/v7").
Proof.
  exact (parseBranches_length asciiTrimSpace "branch/v6,branch/v7"
           ["branch/v6"; "branch/v7"] eq_refl).
Defined.

(* ================================================================== *)
(** ** The program *)

Lemma engineCall_no_pull (c : Client) (branch : string) (l : list call) :
  List.Forall (engineCall c branch) l -> List.filter isCreatePull l = [].
Proof.
  induction 1 as [|k l [Hk _] _ IH]; [reflexivity|].
  cbn [List.filter]. destruct k as [X e]. destruct e; cbn in Hk |- *; try exact IH.
  contradiction.
Qed.

Lemma GetPullRequestMetadata_no_pull (c : Client) (number : Z) :
  Always (fun k => isCreatePull k = false) (GetPullRequestMetadata c number).
Proof.
  unfold GetPullRequestMetadata.
  apply Always_call; [reflexivity|]. intros [err|pull]; [apply Always_ret|].
  destruct (negb _); [apply Always_ret|].
  destruct (negb _); [apply Always_ret|].
  apply Always_bind; [|intros [err|commits]; apply Always_ret].
  unfold getPullRequestCommits. apply Always_iter. intros [acc opts]. unfold pageStep.
  apply Always_call; [reflexivity|]. intros [err|[cs resp]]; [apply Always_ret|].
  destruct (Response.NextPage resp =? 0); apply Always_ret.
Qed.

Lemma no_pull_filter (l : list call) :
  List.Forall (fun k => isCreatePull k = false) l -> List.filter isCreatePull l = [].
Proof.
  induction 1 as [|k l Hk _ IH]; [reflexivity|]. cbn [List.filter]. rewrite Hk. exact IH.
Qed.

Section Program.

Context {G : Type} (h : host G) (clt : Client) (pr : Z) (commits : list string)
  (branchName : string).

Lemma CreatePullRequest_inv (base head text : string) (g g' : G) (l : list call)
    (r : option error) :
  Returns h (CreatePullRequest clt base head text) g g' l r ->
  exists x,
    h _ (PullRequests_Create (org clt) (rep clt)
           {| NewPullRequest.Title := Some text;
              NewPullRequest.Head := Some head;
              NewPullRequest.Base := Some base;
              NewPullRequest.Body := Some text;
              NewPullRequest.MaintainerCanModify := Some true |}) g = (g', x) /\
    l = [Call (PullRequests_Create (org clt) (rep clt)
                 {| NewPullRequest.Title := Some text;
                    NewPullRequest.Head := Some head;
                    NewPullRequest.Base := Some base;
                    NewPullRequest.Body := Some text;
                    NewPullRequest.MaintainerCanModify := Some true |})] /\
    r = match x with inl err => Some err | inr _ => None end.
Proof.
  unfold CreatePullRequest. intros H.
  apply Returns_call_inv in H. destruct H as (g1 & x & l' & E & Hk & ->).
  exists x. destruct x as [err|p]; apply Returns_ret_inv in Hk;
    destruct Hk as (-> & -> & ->); auto.
Qed.

(** One round of the loop of [main] that goes well. *)
Lemma backportTargets_ok (t : string) (rest : list string) (p : PullRequest.t)
    (g g1 g2 g3 : G) (l1 l2 : list call) (r : option error) :
  Returns h (Backport clt t branchName commits) g g1 l1 (inr (newBranchName t branchName)) ->
  h _ (PullRequests_Create (org clt) (rep clt)
         {| NewPullRequest.Title := Some (generateTitleAndBody pr t);
            NewPullRequest.Head := Some (newBranchName t branchName);
            NewPullRequest.Base := Some t;
            NewPullRequest.Body := Some (generateTitleAndBody pr t);
            NewPullRequest.MaintainerCanModify := Some true |}) g1 = (g2, inr p) ->
  Returns h (backportTargets clt pr commits branchName rest) g2 g3 l2 r ->
  Returns h (backportTargets clt pr commits branchName (t :: rest)) g g3
    (l1 ++ createPullCall clt pr branchName t :: l2) r.
Proof.
  intros Hb Hc Hr. cbn [backportTargets].
  eapply Returns_bind; [exact Hb|]. cbn beta iota. unfold CreatePullRequest.
  change (createPullCall clt pr branchName t :: l2)
    with ([createPullCall clt pr branchName t] ++ l2).
  eapply Returns_bind; [unfold createPullCall; call_step; apply Returns_ret | exact Hr].
Qed.

Lemma backportTargets_inv (t : string) (rest : list string) (g g' : G) (l : list call)
    (r : option error) :
  Returns h (backportTargets clt pr commits branchName (t :: rest)) g g' l r ->
  (exists err, r = Some err /\
     Returns h (Backport clt t branchName commits) g g' l (inl err)) \/
  (exists g1 l1 x,
     Returns h (Backport clt t branchName commits) g g1 l1 (inr (newBranchName t branchName)) /\
     match x with
     | inl err =>
         h _ (PullRequests_Create (org clt) (rep clt)
                {| NewPullRequest.Title := Some (generateTitleAndBody pr t);
                   NewPullRequest.Head := Some (newBranchName t branchName);
                   NewPullRequest.Base := Some t;
                   NewPullRequest.Body := Some (generateTitleAndBody pr t);
                   NewPullRequest.MaintainerCanModify := Some true |}) g1 = (g', inl err) /\
         r = Some err /\ l = l1 ++ [createPullCall clt pr branchName t]
     | inr p =>
         exists g2 l2,
           h _ (PullRequests_Create (org clt) (rep clt)
                  {| NewPullRequest.Title := Some (generateTitleAndBody pr t);
                     NewPullRequest.Head := Some (newBranchName t branchName);
                     NewPullRequest.Base := Some t;
                     NewPullRequest.Body := Some (generateTitleAndBody pr t);
                     NewPullRequest.MaintainerCanModify := Some true |}) g1 = (g2, inr p) /\
           Returns h (backportTargets clt pr commits branchName rest) g2 g' l2 r /\
           l = l1 ++ createPullCall clt pr branchName t :: l2
     end).
Proof.
  cbn [backportTargets]. intros H.
  apply Returns_bind_inv in H. destruct H as (g1 & l1 & [err|name] & l2 & Hb & Hk & ->).
  - left. apply Returns_ret_inv in Hk. destruct Hk as (-> & -> & ->).
    exists err. rewrite app_nil_r. auto.
  - right. pose proof (Backport_name h clt _ _ _ _ _ _ _ Hb) as ->.
    apply Returns_bind_inv in Hk. destruct Hk as (g2 & lc & e & l3 & Hc & Hk & ->).
    apply CreatePullRequest_inv in Hc. destruct Hc as (x & E & -> & ->).
    exists g1, l1, x. split; [exact Hb|]. destruct x as [err|p].
    + apply Returns_ret_inv in Hk. destruct Hk as (-> & -> & ->). auto.
    + exists g2, l3. auto.
Qed.

Lemma backportTargets_app (pre rest : list string) :
  forall (g g1 g2 : G) (l1 l2 : list call) (r : option error),
  Returns h (backportTargets clt pr commits branchName pre) g g1 l1 None ->
  Returns h (backportTargets clt pr commits branchName rest) g1 g2 l2 r ->
  Returns h (backportTargets clt pr commits branchName (pre ++ rest)) g g2 (l1 ++ l2) r.
Proof.
  induction pre as [|t pre IH]; intros g g1 g2 l1 l2 r Hp Hr.
  - cbn [backportTargets] in Hp. apply Returns_ret_inv in Hp.
    destruct Hp as (-> & -> & _). exact Hr.
  - apply backportTargets_inv in Hp.
    destruct Hp as [(err & Hn & _) | (ga & la & [err|p] & Hb & Hx)]; [discriminate| |].
    + destruct Hx as (_ & Hn & _). discriminate.
    + destruct Hx as (gb & lb & E & Hp & ->).
      cbn [app]. rewrite <- app_assoc. cbn [app].
      eapply backportTargets_ok; [exact Hb | exact E |]. eapply IH; eassumption.
Qed.

Lemma backportTargets_done (targets : list string) :
  forall (g g' : G) (l : list call),
  Returns h (backportTargets clt pr commits branchName targets) g g' l None ->
  List.filter isCreatePull l = List.map (createPullCall clt pr branchName) targets.
Proof.
  induction targets as [|t rest IH]; intros g g' l H.
  - cbn [backportTargets] in H. apply Returns_ret_inv in H. destruct H as (_ & -> & _).
    reflexivity.
  - apply backportTargets_inv in H.
    destruct H as [(err & Hn & _) | (g1 & l1 & [err|p] & Hb & Hx)]; [discriminate| |].
    + destruct Hx as (_ & Hn & _). discriminate.
    + destruct Hx as (g2 & l2 & E & Hr & ->).
      pose proof (Backport_calls clt t branchName commits G h g g1 l1 _ Hb) as Hs.
      cbn beta in Hs. apply engineCall_no_pull in Hs.
      rewrite List.filter_app, Hs. cbn [app List.filter isCreatePull createPullCall].
      fold (createPullCall clt pr branchName t). rewrite (IH _ _ _ Hr). reflexivity.
Qed.

(** When the loop of [main] ends normally it has opened one pull
    request per target branch, in the order of the targets, from the
    branch [auto-backport/<target>/<source>] into the target, with the
    generated text as title and as body; and it has made
    [5 + 8 * len(commits)] calls per target. *)
Theorem backportTargets_pull_requests (targets : list string) (g g' : G) (l : list call) :
  Returns h (backportTargets clt pr commits branchName targets) g g' l None ->
  List.filter isCreatePull l =
    List.map (fun t =>
      Call (PullRequests_Create (org clt) (rep clt)
              {| NewPullRequest.Title := Some ("Backport #" ++ Itoa pr ++ " to " ++ t)%string;
                 NewPullRequest.Head := Some ("auto-backport/" ++ t ++ "/" ++ branchName)%string;
                 NewPullRequest.Base := Some t;
                 NewPullRequest.Body := Some ("Backport #" ++ Itoa pr ++ " to " ++ t)%string;
                 NewPullRequest.MaintainerCanModify := Some true |})) targets /\
  List.length l = ((5 + 8 * List.length commits) * List.length targets)%nat.
Proof.
  intros H. split; [exact (backportTargets_done targets g g' l H)|].
  revert g g' l H. induction targets as [|t rest IH]; intros g g' l H.
  - cbn [backportTargets] in H. apply Returns_ret_inv in H. destruct H as (_ & -> & _).
    cbn. lia.
  - apply backportTargets_inv in H.
    destruct H as [(err & Hn & _) | (g1 & l1 & [err|p] & Hb & Hx)]; [discriminate| |].
    + destruct Hx as (_ & Hn & _). discriminate.
    + destruct Hx as (g2 & l2 & E & Hr & ->).
      pose proof (Backport_shape h clt t branchName commits g g1 l1 _ Hb) as Ht.
      cbn beta iota in Ht. unfold tally in Ht. injection Ht as Hl1 _ _.
      rewrite List.length_app. cbn [List.length]. rewrite (IH _ _ _ Hr), Hl1. lia.
Qed.

(** The failures of the loop of [main].  The loop ends with an error
    exactly when, the targets before some target [t] having gone well,
    either [Backport] fails for [t], and the error is its error, or
    the pull request of [t] is refused, and the error is the host's as
    it is.  In both cases the run ends there: the later targets are
    not touched, what was done for the earlier ones stays, and in the
    second case so does the branch made for [t]. *)
Theorem backportTargets_failure (targets : list string) (g g' : G) (l : list call)
    (err : error) :
  Returns h (backportTargets clt pr commits branchName targets) g g' l (Some err) <->
  exists (done : list string) (t : string) (rest : list string) (g1 : G) (l1 : list call),
    targets = done ++ t :: rest /\
    Returns h (backportTargets clt pr commits branchName done) g g1 l1 None /\
    ((exists l2,
        Returns h (Backport clt t branchName commits) g1 g' l2 (inl err) /\
        l = l1 ++ l2) \/
     (exists g2 l2,
        Returns h (Backport clt t branchName commits) g1 g2 l2
          (inr (newBranchName t branchName)) /\
        h _ (PullRequests_Create (org clt) (rep clt)
               {| NewPullRequest.Title := Some (generateTitleAndBody pr t);
                  NewPullRequest.Head := Some (newBranchName t branchName);
                  NewPullRequest.Base := Some t;
                  NewPullRequest.Body := Some (generateTitleAndBody pr t);
                  NewPullRequest.MaintainerCanModify := Some true |}) g2 = (g', inl err) /\
        l = l1 ++ l2 ++ [createPullCall clt pr branchName t])).
Proof.
  split.
  - revert g g' l. induction targets as [|t rest IH]; intros g g' l H.
    + cbn [backportTargets] in H. apply Returns_ret_inv in H.
      destruct H as (_ & _ & H). discriminate.
    + apply backportTargets_inv in H.
      destruct H as [(e & He & Hb) | (g1 & l1 & [e|p] & Hb & Hx)].
      * injection He as <-. exists [], t, rest, g, [].
        split; [reflexivity|]. split; [apply Returns_ret|]. left. exists l. auto.
      * destruct Hx as (E & He & ->). injection He as <-.
        exists [], t, rest, g, []. split; [reflexivity|]. split; [apply Returns_ret|].
        right. exists g1, l1. auto.
      * destruct Hx as (g2 & l2 & E & Hr & ->).
        destruct (IH _ _ _ Hr) as (done & t' & rest' & ga & la & -> & Hd & Hcases).
        exists (t :: done), t', rest', ga, (l1 ++ createPullCall clt pr branchName t :: la).
        split; [reflexivity|].
        split; [eapply backportTargets_ok; eassumption|].
        destruct Hcases as [(lb & Hb' & ->) | (gb & lb & Hb' & E' & ->)].
        -- left. exists lb. split; [exact Hb'|]. rewrite <- app_assoc. reflexivity.
        -- right. exists gb, lb. split; [exact Hb'|]. split; [exact E'|].
           rewrite <- app_assoc. reflexivity.
  - intros (done & t & rest & g1 & l1 & -> & Hd & Hcases).
    destruct Hcases as [(l2 & Hb & ->) | (g2 & l2 & Hb & E & ->)].
    + eapply backportTargets_app; [exact Hd|]. cbn [backportTargets].
      rewrite <- (app_nil_r l2). eapply Returns_bind; [exact Hb|]. apply Returns_ret.
    + eapply backportTargets_app; [exact Hd|]. cbn [backportTargets].
      eapply Returns_bind; [exact Hb|]. cbn beta iota.
      eapply Returns_bind_eq;
        [unfold CreatePullRequest; call_step; apply Returns_ret
        | apply Returns_ret | reflexivity].
Qed.

End Program.

Section Main.

Context (TrimSpace : string -> string) {G : Type} (h : host G).

Lemma New_inr (cfg : Config) (clt : Client) :
  New cfg = inr clt -> clt = mkClient (NewClient (Token cfg)) cfg /\ Check cfg = None.
Proof.
  unfold New. destruct (Check cfg); [discriminate|]. intros H. injection H as <-. auto.
Qed.

Lemma GetPullRequestMetadata_calls_first (clt : Client) (number : Z) (g g' : G)
    (l : list call) (r : result (list string * string)) :
  Returns h (GetPullRequestMetadata clt number) g g' l r ->
  exists l', l = Call (PullRequests_Get (org clt) (rep clt) number) :: l'.
Proof.
  unfold GetPullRequestMetadata. intros H. apply Returns_call_inv in H.
  destruct H as (g1 & x & l' & _ & _ & ->). exists l'. reflexivity.
Qed.

(** [main] checks its inputs before it makes a call.  It ends without
    a call exactly when the list of targets or the pull-request number
    is missing, the token could not be read, the list of targets has
    an empty piece, or the token, the owner or the repository is
    empty; otherwise its first call fetches the pull request. *)
Theorem main_checks_first (tk : result string) (to : string) (pr : Z)
    (repo owner : string) (g : G) :
  ((exists g' r, Returns h (main TrimSpace tk to pr repo owner) g g' [] r) <->
   to = "" \/ pr = 0 \/ (exists err, tk = inl err) \/
   (exists err, parseBranches TrimSpace to = inl err) \/
   (exists token, tk = inr token /\ (token = "" \/ owner = "" \/ repo = ""))) /\
  (forall g' k l r,
     Returns h (main TrimSpace tk to pr repo owner) g g' (k :: l) r ->
     k = Call (PullRequests_Get owner repo pr)).
Proof.
  unfold main, parseFlags.
  destruct (String.eqb_spec to "") as [Hto|Hto].
  { split; [split; [auto|]|].
    - intros _. exists g, (Some (BadParameter "must supply branches to backport to.")).
      apply Returns_ret.
    - intros g' k l r H. apply Returns_ret_inv in H. destruct H as (_ & H & _). discriminate. }
  destruct (Z.eqb_spec pr 0) as [Hpr|Hpr].
  { split; [split; [auto|]|].
    - intros _. eexists g, _. apply Returns_ret.
    - intros g' k l r H. apply Returns_ret_inv in H. destruct H as (_ & H & _). discriminate. }
  destruct tk as [e|token].
  { split; [split; [eauto 6|]|].
    - intros _. eexists g, _. apply Returns_ret.
    - intros g' k l r H. apply Returns_ret_inv in H. destruct H as (_ & H & _). discriminate. }
  destruct (parseBranches TrimSpace to) as [e|branches] eqn:Eb.
  { split; [split; [eauto 7|]|].
    - intros _. eexists g, _. apply Returns_ret.
    - intros g' k l r H. apply Returns_ret_inv in H. destruct H as (_ & H & _). discriminate. }
  destruct (New {| Token := token; Organization := owner; Repository := repo |})
    as [e|clt] eqn:En.
  { split; [split|].
    - intros _. do 4 right. exists token. split; [reflexivity|].
      unfold New in En. destruct (Check _) as [e'|] eqn:Ec in En; [|discriminate].
      destruct (String.eqb_spec token ""); [auto|].
      destruct (String.eqb_spec owner ""); [auto|].
      destruct (String.eqb_spec repo ""); [auto|].
      assert (Check {| Token := token; Organization := owner; Repository := repo |} = None)
        as Hc by (apply Check_None; auto).
      congruence.
    - intros _. eexists g, _. apply Returns_ret.
    - intros g' k l r H. apply Returns_ret_inv in H. destruct H as (_ & H & _). discriminate. }
  apply New_inr in En. destruct En as [-> Hc]. apply Check_None in Hc. cbn in Hc.
  split; [split|].
  - intros (g' & r & H). exfalso.
    apply Returns_bind_inv in H. destruct H as (g1 & l1 & a & l2 & Hm & _ & Hl).
    apply GetPullRequestMetadata_calls_first in Hm. destruct Hm as (l' & ->). discriminate.
  - intros [H|[H|[(e & H)|[(e & H)|(tok & H & Hcases)]]]];
      try contradiction; try discriminate.
    injection H as <-. tauto.
  - intros g' k l r H.
    apply Returns_bind_inv in H. destruct H as (g1 & l1 & a & l2 & Hm & _ & Hl).
    apply GetPullRequestMetadata_calls_first in Hm. destruct Hm as (l' & ->).
    injection Hl as -> _. reflexivity.
Qed.

(** When [main] ends normally it has read the token, parsed the
    targets, fetched the pull request, and opened one pull request per
    target, in order, each from [auto-backport/<target>/<source>] into
    the target with the text [Backport #<pr> to <target>]. *)
Theorem main_success (tk : result string) (to : string) (pr : Z) (repo owner : string)
    (g g' : G) (l : list call) :
  Returns h (main TrimSpace tk to pr repo owner) g g' l None ->
  exists (token : string) (branches commits : list string) (source : string)
         (g1 : G) (l1 : list call),
    tk = inr token /\
    parseBranches TrimSpace to = inr branches /\
    Returns h (GetPullRequestMetadata
                 (mkClient (NewClient token) (mkConfig token owner repo)) pr)
      g g1 l1 (inr (commits, source)) /\
    List.filter isCreatePull l =
      List.map (createPullCall (mkClient (NewClient token) (mkConfig token owner repo))
                  pr source) branches.
Proof.
  unfold main. intros H.
  destruct (parseFlags to pr);
    [apply Returns_ret_inv in H; destruct H as (_ & _ & H); discriminate|].
  destruct tk as [e|token];
    [apply Returns_ret_inv in H; destruct H as (_ & _ & H); discriminate|].
  destruct (parseBranches TrimSpace to) as [e|branches];
    [apply Returns_ret_inv in H; destruct H as (_ & _ & H); discriminate|].
  destruct (New _) as [e|clt] eqn:En;
    [apply Returns_ret_inv in H; destruct H as (_ & _ & H); discriminate|].
  apply New_inr in En. destruct En as [-> _]. cbn [Token] in H.
  apply Returns_bind_inv in H.
  destruct H as (g1 & l1 & [e|[commits source]] & l2 & Hm & Hk & ->);
    [apply Returns_ret_inv in Hk; destruct Hk as (_ & _ & Hk); discriminate|].
  exists token, branches, commits, source, g1, l1.
  split; [reflexivity|]. split; [reflexivity|]. split; [exact Hm|].
  rewrite List.filter_app.
  rewrite (no_pull_filter l1 (GetPullRequestMetadata_no_pull _ pr G h g g1 l1 _ Hm)).
  exact (backportTargets_done h _ pr commits source branches g1 g' l2 Hk).
Qed.

End Main.

Lemma main_success_witness :
  exists g' l,
    Returns MemHost.serve
      (main asciiTrimSpace (inr "token") "release/1.0" 7 "teleport" "gravitational")
      Example.repo g' l None /\
    List.filter isCreatePull l = [createPullCall Example.clt 7 "feature-x" "release/1.0"] /\
    List.length l = 23%nat.
Proof.
  assert (exists g' l,
            Returns MemHost.serve
              (main asciiTrimSpace (inr "token") "release/1.0" 7 "teleport" "gravitational")
              Example.repo g' l None /\ List.length l = 23%nat)
    as (g' & l & H & Hl)
    by (do 2 eexists; split; [exists 80%nat; vm_compute; reflexivity | reflexivity]).
  exists g', l. split; [exact H|]. split; [|exact Hl].
  destruct (main_success asciiTrimSpace MemHost.serve (inr "token") "release/1.0" 7
              "teleport" "gravitational" Example.repo g' l H)
    as (token & branches & commits & source & g1 & l1 & Et & Eb & Hm & Hf).
  injection Et as <-. vm_compute in Eb. injection Eb as <-.
  assert (source = "feature-x") as ->.
  { assert (Returns MemHost.serve (GetPullRequestMetadata Example.clt 7) Example.repo
              Example.repo [Call (getCall Example.clt 7); Call (listCall Example.clt 7)]
              (inr (["C1"; "C2"], "feature-x"))) as Hm'
      by (exists 10%nat; vm_compute; reflexivity).
    destruct (Returns_det _ _ _ _ _ _ _ _ _ Hm Hm') as (_ & _ & E).
    injection E as _ E. exact E. }
  exact Hf.
Defined.

(** Two targets: the release branch and master. *)
Lemma backportTargets_pull_requests_witness :
  exists g' l,
    Returns MemHost.serve
      (backportTargets Example.clt 7 ["C1"; "C2"] "feature-x" ["release/1.0"; "master"])
      Example.repo g' l None /\
    List.filter isCreatePull l =
      [ Call (PullRequests_Create "gravitational" "teleport"
                {| NewPullRequest.Title := Some "Backport #7 to release/1.0";
                   NewPullRequest.Head := Some "auto-backport/release/1.0/feature-x";
                   NewPullRequest.Base := Some "release/1.0";
                   NewPullRequest.Body := Some "Backport #7 to release/1.0";
                   NewPullRequest.MaintainerCanModify := Some true |});
        Call (PullRequests_Create "gravitational" "teleport"
                {| NewPullRequest.Title := Some "Backport #7 to master";
                   NewPullRequest.Head := Some "auto-backport/master/feature-x";
                   NewPullRequest.Base := Some "master";
                   NewPullRequest.Body := Some "Backport #7 to master";
                   NewPullRequest.MaintainerCanModify := Some true |}) ] /\
    List.length l = 42%nat.
Proof.
  assert (exists g' l,
            Returns MemHost.serve
              (backportTargets Example.clt 7 ["C1"; "C2"] "feature-x" ["release/1.0"; "master"])
              Example.repo g' l None)
    as (g' & l & H) by (do 2 eexists; exists 150%nat; vm_compute; reflexivity).
  exists g', l. split; [exact H|].
  exact (backportTargets_pull_requests MemHost.serve Example.clt 7 ["C1"; "C2"] "feature-x"
           ["release/1.0"; "master"] Example.repo g' l H).
Defined.
